(** * VoIPUser: the browser-side SIP call session state machine

    A shallow embedding of [client/components/voip/VoIPUser.ts].  The class
    is a mutable object driven by two kinds of inputs: commands of the UI
    layer ([register], [acceptCall], [endCall], ...) and callbacks of the
    sip.js transport ([onConnect], [onInvite], [onAccept], the session's
    [stateChange] emitter, ...).  Every method is a computation in a small
    monad that threads the object's fields, records the events emitted and
    the commands issued to the transport, and either returns or throws.

    Logging calls ([this.logger....]) change nothing and are left out. *)

From Stdlib Require Import List String Bool Arith Lia.
Import ListNotations.
Local Open Scope string_scope.

(** ** Enumerations *)

(** Modelled from the spec: the declaration [definitions/CallStates] is not
    among the sources; these are the seven values of [callState] the spec
    lists, the string literals the class assigns to and compares with
    [_callState]. *)
Inductive CallStates :=
| IDLE | SERVER_CONNECTED | REGISTERED | UNREGISTERED
| OFFER_RECEIVED | ANSWER_SENT | IN_CALL.

Definition CallStates_eqb (a b : CallStates) : bool :=
  match a, b with
  | IDLE, IDLE | SERVER_CONNECTED, SERVER_CONNECTED | REGISTERED, REGISTERED
  | UNREGISTERED, UNREGISTERED | OFFER_RECEIVED, OFFER_RECEIVED
  | ANSWER_SENT, ANSWER_SENT | IN_CALL, IN_CALL => true
  | _, _ => false
  end.

(** The literal itself, as interpolated in error messages. *)
Definition CallStates_text (c : CallStates) : string :=
  match c with
  | IDLE => "IDLE" | SERVER_CONNECTED => "SERVER_CONNECTED"
  | REGISTERED => "REGISTERED" | UNREGISTERED => "UNREGISTERED"
  | OFFER_RECEIVED => "OFFER_RECEIVED" | ANSWER_SENT => "ANSWER_SENT"
  | IN_CALL => "IN_CALL"
  end.

(** Modelled from the spec: the declaration of the enum [Operation]
    ([Operations]) is not among the sources; these are the five values of
    [operationInProgress] the spec lists, under the names the class uses. *)
Module Operation.
Inductive Operation :=
| OP_NONE | OP_CONNECT | OP_REGISTER | OP_UNREGISTER | OP_PROCESS_INVITE.

Definition eqb (a b : Operation) : bool :=
  match a, b with
  | OP_NONE, OP_NONE | OP_CONNECT, OP_CONNECT | OP_REGISTER, OP_REGISTER
  | OP_UNREGISTER, OP_UNREGISTER | OP_PROCESS_INVITE, OP_PROCESS_INVITE => true
  | _, _ => false
  end.
End Operation.
Abbreviation Operation := Operation.Operation.

(** Modelled from the spec: the declaration [definitions/UserState] is not
    among the sources; the spec gives [userState] the values [IDLE] and
    [UAS], the two members the class uses. *)
Module UserState.
Inductive UserState := IDLE | UAS.
End UserState.
Abbreviation UserState := UserState.UserState.

(** sip.js [SessionState]. *)
Module SessionState.
Inductive SessionState :=
| Initial | Establishing | Established | Terminating | Terminated.
End SessionState.
Abbreviation SessionState := SessionState.SessionState.

(** ** Objects of the transport *)

(** Browser objects, by reference. *)
Definition MediaStream := nat.
Definition MediaElement := nat.

(** The error value a transport callback carries. *)
Definition ErrorValue := string.

(** The sip.js [URI] and [NameAddrHeader], as far as the class reads them. *)
Record URI := { user : option string; host : string }.
Record NameAddrHeader := { uri : URI; displayName : string }.

(** An inbound [Invitation]; [ref] stands for the identity of the object. *)
Record Invitation := { ref : nat; remoteIdentity : NameAddrHeader }.

(** A [Session] is an [Invitation] or an instance of another subclass. *)
Inductive Session :=
| AnInvitation (invitation : Invitation)
| AnInviter (r : nat).

Definition session_ref (s : Session) : nat :=
  match s with
  | AnInvitation i => ref i
  | AnInviter r => r
  end.

(** [a === b] on session objects compares references. *)
Definition same_session (a b : Session) : bool :=
  Nat.eqb (session_ref a) (session_ref b).

(** [session.sessionDescriptionHandler]: the web handler of sip.js, with its
    remote stream, or a handler of another class. *)
Inductive SessionDescriptionHandler :=
| WebSessionDescriptionHandler (remoteMediaStream : option MediaStream)
| OtherSessionDescriptionHandler.

(** What the class reads from the session objects the transport owns and
    mutates: [session.state] and [session.sessionDescriptionHandler], by
    reference. *)
Record Transport := {
  sessionState : nat -> SessionState;
  sessionDescriptionHandler : nat -> option SessionDescriptionHandler
}.

(** ** Data of the class *)

(** Modelled from the spec: the declaration [definitions/ICallerInfo] is not
    among the sources; the spec's structure [{ callerId, callerName, host }],
    which [handleIncomingCall] fills. *)
Record ICallerInfo := {
  callerId : string;
  callerName : string;
  callerHost : string   (* the field [host] *)
}.

(** [IState], as the initialiser of the field [state] has it. *)
Record IState := { isReady : bool; enableVideo : bool }.

(** [IMediaStreamRenderer], as far as the class reads it: the element that
    renders the remote stream, which [setupRemoteMedia] tests. *)
Record IMediaStreamRenderer := { remoteMediaElement : option MediaElement }.

(** Modelled from the spec: the declaration [VoIPUserConfiguration] is not
    among the sources; the options the spec recognises, which [init] and
    [acceptCall] read. *)
Record VoIPUserConfiguration := {
  authUserName : string;
  authPassword : string;
  sipRegistrarHostnameOrIP : string;
  webSocketURI : string;
  iceServers : list string;
  configEnableVideo : option bool   (* the option [enableVideo] *)
}.

(** What [UserAgent.makeURI] returns for a string: a URI, or undefined when
    the string is no SIP URI.  The parser is sip.js's; the value is kept as
    the call that produced it. *)
Inductive MadeURI := makeURI (s : string).

(** The sip.js [UserAgent], by the options [init] builds it from. *)
Record UserAgent := {
  agentUri : MadeURI;
  authorizationUsername : string;
  authorizationPassword : string;
  server : string
}.

(** The sip.js [Registerer] of a user agent. *)
Record Registerer := { agent : UserAgent }.

(** Modelled from the spec: the class [media/Stream] is not among the
    sources; the spec's wrapper that owns the remote stream handle.  Its
    methods appear among the effects below. *)
Record Stream := { mediaStream : MediaStream }.

(** What the getter [callerInfo] returns, as the getter builds it: the field
    [callerInfo] is present only in the [IN_CALL] shape of the union. *)
Record VoIpCallerInfo := {
  infoState : CallStates;
  infoCallerInfo : option ICallerInfo;
  infoUserState : UserState
}.

(** The fields of a [VoIPUser].  [listeners] are the closures the object has
    added to [stateChange] emitters: the reference of the session whose
    emitter holds the closure, and the session the closure captured. *)
Record VoIPUser := {
  state : IState;
  session : option Session;
  remoteStream : option Stream;
  userAgent : option UserAgent;
  registerer : option Registerer;
  mediaStreamRendered : option IMediaStreamRenderer;
  _callState : CallStates;
  _callerInfo : option ICallerInfo;
  _userState : UserState;
  _opInProgress : Operation;
  config : VoIPUserConfiguration;
  listeners : list (nat * Session)
}.

Definition set_isReady (b : bool) (u : VoIPUser) : VoIPUser :=
  {| state := {| isReady := b; enableVideo := enableVideo (state u) |};
     session := session u; remoteStream := remoteStream u;
     userAgent := userAgent u; registerer := registerer u;
     mediaStreamRendered := mediaStreamRendered u;
     _callState := _callState u; _callerInfo := _callerInfo u;
     _userState := _userState u; _opInProgress := _opInProgress u;
     config := config u; listeners := listeners u |}.

Definition set_session (s : option Session) (u : VoIPUser) : VoIPUser :=
  {| state := state u; session := s; remoteStream := remoteStream u;
     userAgent := userAgent u; registerer := registerer u;
     mediaStreamRendered := mediaStreamRendered u;
     _callState := _callState u; _callerInfo := _callerInfo u;
     _userState := _userState u; _opInProgress := _opInProgress u;
     config := config u; listeners := listeners u |}.

Definition set_remoteStream (s : option Stream) (u : VoIPUser) : VoIPUser :=
  {| state := state u; session := session u; remoteStream := s;
     userAgent := userAgent u; registerer := registerer u;
     mediaStreamRendered := mediaStreamRendered u;
     _callState := _callState u; _callerInfo := _callerInfo u;
     _userState := _userState u; _opInProgress := _opInProgress u;
     config := config u; listeners := listeners u |}.

Definition set_userAgent (a : option UserAgent) (u : VoIPUser) : VoIPUser :=
  {| state := state u; session := session u; remoteStream := remoteStream u;
     userAgent := a; registerer := registerer u;
     mediaStreamRendered := mediaStreamRendered u;
     _callState := _callState u; _callerInfo := _callerInfo u;
     _userState := _userState u; _opInProgress := _opInProgress u;
     config := config u; listeners := listeners u |}.

Definition set_registerer (r : option Registerer) (u : VoIPUser) : VoIPUser :=
  {| state := state u; session := session u; remoteStream := remoteStream u;
     userAgent := userAgent u; registerer := r;
     mediaStreamRendered := mediaStreamRendered u;
     _callState := _callState u; _callerInfo := _callerInfo u;
     _userState := _userState u; _opInProgress := _opInProgress u;
     config := config u; listeners := listeners u |}.

Definition set_mediaStreamRendered (m : option IMediaStreamRenderer)
    (u : VoIPUser) : VoIPUser :=
  {| state := state u; session := session u; remoteStream := remoteStream u;
     userAgent := userAgent u; registerer := registerer u;
     mediaStreamRendered := m;
     _callState := _callState u; _callerInfo := _callerInfo u;
     _userState := _userState u; _opInProgress := _opInProgress u;
     config := config u; listeners := listeners u |}.

Definition set_callState (c : CallStates) (u : VoIPUser) : VoIPUser :=
  {| state := state u; session := session u; remoteStream := remoteStream u;
     userAgent := userAgent u; registerer := registerer u;
     mediaStreamRendered := mediaStreamRendered u;
     _callState := c; _callerInfo := _callerInfo u;
     _userState := _userState u; _opInProgress := _opInProgress u;
     config := config u; listeners := listeners u |}.

Definition set_callerInfo (c : option ICallerInfo) (u : VoIPUser) : VoIPUser :=
  {| state := state u; session := session u; remoteStream := remoteStream u;
     userAgent := userAgent u; registerer := registerer u;
     mediaStreamRendered := mediaStreamRendered u;
     _callState := _callState u; _callerInfo := c;
     _userState := _userState u; _opInProgress := _opInProgress u;
     config := config u; listeners := listeners u |}.

Definition set_userState (s : UserState) (u : VoIPUser) : VoIPUser :=
  {| state := state u; session := session u; remoteStream := remoteStream u;
     userAgent := userAgent u; registerer := registerer u;
     mediaStreamRendered := mediaStreamRendered u;
     _callState := _callState u; _callerInfo := _callerInfo u;
     _userState := s; _opInProgress := _opInProgress u;
     config := config u; listeners := listeners u |}.

Definition set_opInProgress (o : Operation) (u : VoIPUser) : VoIPUser :=
  {| state := state u; session := session u; remoteStream := remoteStream u;
     userAgent := userAgent u; registerer := registerer u;
     mediaStreamRendered := mediaStreamRendered u;
     _callState := _callState u; _callerInfo := _callerInfo u;
     _userState := _userState u; _opInProgress := o;
     config := config u; listeners := listeners u |}.

Definition add_listener (l : nat * Session) (u : VoIPUser) : VoIPUser :=
  {| state := state u; session := session u; remoteStream := remoteStream u;
     userAgent := userAgent u; registerer := registerer u;
     mediaStreamRendered := mediaStreamRendered u;
     _callState := _callState u; _callerInfo := _callerInfo u;
     _userState := _userState u; _opInProgress := _opInProgress u;
     config := config u; listeners := listeners u ++ [l] |}.

(** ** Events and commands *)

(** Modelled from the spec: the declaration [definitions/VoipEvents] is not
    among the sources; the named events of the spec's event stream, with the
    payloads the class passes to [emit]. *)
Inductive VoipEvents :=
| connected
| connectionerror (error : ErrorValue)
| registered
| unregistered
| registrationerror (error : ErrorValue)
| unregistrationerror (error : ErrorValue)
| incomingcall (callerInfo : ICallerInfo)
| callestablished
| callterminated
| stateChanged.

(** What a method does to the outside: an event handed to the emitter, or a
    call on an object of the transport or on the remote [Stream]. *)
Inductive Effect :=
| Emit (e : VoipEvents)
| UserAgentStart
| RegistererRegister
| RegistererUnregister (all : bool)
| InvitationAccept (r : nat) (audio video : bool)
| InvitationReject (r : nat)
| SessionBye (r : nat)
| StreamInit (element : MediaElement)
| StreamOnTrackAdded
| StreamOnTrackRemoved
| StreamPlay
| StreamClear.

(** ** The monad of methods *)

Inductive Completion (A : Type) :=
| Returned (a : A)
| Thrown (message : string).
Arguments Returned {A} a.
Arguments Thrown {A} message.

Record Outcome (A : Type) := {
  completion : Completion A;
  after : VoIPUser;
  effects : list Effect
}.
Arguments completion {A} o.
Arguments after {A} o.
Arguments effects {A} o.

Definition M (A : Type) := VoIPUser -> Outcome A.

Definition ret {A} (a : A) : M A :=
  fun u => {| completion := Returned a; after := u; effects := [] |}.

Definition bind {A B} (m : M A) (f : A -> M B) : M B :=
  fun u =>
    match m u with
    | {| completion := Returned a; after := u1; effects := e1 |} =>
        match f a u1 with
        | {| completion := c; after := u2; effects := e2 |} =>
            {| completion := c; after := u2; effects := e1 ++ e2 |}
        end
    | {| completion := Thrown msg; after := u1; effects := e1 |} =>
        {| completion := Thrown msg; after := u1; effects := e1 |}
    end.

Definition throw {A} (msg : string) : M A :=
  fun u => {| completion := Thrown msg; after := u; effects := [] |}.

Definition gets {A} (f : VoIPUser -> A) : M A :=
  fun u => {| completion := Returned (f u); after := u; effects := [] |}.

Definition modify (f : VoIPUser -> VoIPUser) : M unit :=
  fun u => {| completion := Returned tt; after := f u; effects := [] |}.

Definition perform (e : Effect) : M unit :=
  fun u => {| completion := Returned tt; after := u; effects := [e] |}.

Declare Scope method_scope.
Delimit Scope method_scope with method.
Notation "x <- m ;; k" := (bind m (fun x => k))
  (at level 61, m at next level, right associativity) : method_scope.
Notation "m ;; k" := (bind m (fun _ => k))
  (at level 61, right associativity) : method_scope.
Local Open Scope method_scope.

Definition when (c : bool) (m : M unit) : M unit :=
  if c then m else ret tt.

(** ** The class *)

(** [new VoIPUser(config, mediaRenderer)]: the field initialisers and the
    constructor.  The two listeners the constructor installs are part of
    [emit] below. *)
Definition construct (cfg : VoIPUserConfiguration)
    (mediaRenderer : option IMediaStreamRenderer) : VoIPUser :=
  {| state := {| isReady := false; enableVideo := false |};
     session := None; remoteStream := None;
     userAgent := None; registerer := None;
     mediaStreamRendered := mediaRenderer;
     _callState := IDLE; _callerInfo := None;
     _userState := UserState.IDLE; _opInProgress := Operation.OP_NONE;
     config := cfg; listeners := [] |}.

(** [this.emit(e)]: the event goes out, and the listeners of the constructor
    run: ['connected'] sets [state.isReady], ['connectionerror'] clears it. *)
Definition emit (e : VoipEvents) : M unit :=
  perform (Emit e) ;;
  match e with
  | connected => modify (set_isReady true)
  | connectionerror _ => modify (set_isReady false)
  | _ => ret tt
  end.

(** The getter [callState]. *)
Definition callState (u : VoIPUser) : CallStates := _callState u.

(** The getter [operationInProgress]. *)
Definition operationInProgress (u : VoIPUser) : Operation := _opInProgress u.

(** The getter [callerInfo]. *)
Definition callerInfo (u : VoIPUser) : Completion VoIpCallerInfo :=
  if CallStates_eqb (callState u) IN_CALL then
    match _callerInfo u with
    | None => Thrown "[VoIPUser callerInfo] invalid state"
    | Some c =>
        Returned {| infoState := IN_CALL; infoCallerInfo := Some c;
                    infoUserState := _userState u |}
    end
  else
    Returned {| infoState := callState u; infoCallerInfo := None;
                infoUserState := _userState u |}.

(** [isReady()]. *)
Definition isReady_ (u : VoIPUser) : bool := isReady (state u).

Definition onAccept : M unit :=
  op <- gets _opInProgress ;;
  when (Operation.eqb op Operation.OP_REGISTER)
    (modify (set_callState REGISTERED) ;;
     emit registered ;;
     emit stateChanged) ;;
  op <- gets _opInProgress ;;
  when (Operation.eqb op Operation.OP_UNREGISTER)
    (modify (set_callState UNREGISTERED) ;;
     emit unregistered ;;
     emit stateChanged).

Definition onReject (error : ErrorValue) : M unit :=
  op <- gets _opInProgress ;;
  when (Operation.eqb op Operation.OP_REGISTER)
    (emit (registrationerror error)) ;;
  op <- gets _opInProgress ;;
  when (Operation.eqb op Operation.OP_UNREGISTER)
    (emit (unregistrationerror error)).

(** [setupRemoteMedia()]. *)
Definition setupRemoteMedia (tr : Transport) : M unit :=
  s <- gets session ;;
  match s with
  | None => throw "Session does not exist."
  | Some s =>
      match sessionDescriptionHandler tr (session_ref s) with
      | None => ret tt
      | Some OtherSessionDescriptionHandler =>
          throw "Session description handler not instance of web SessionDescriptionHandler"
      | Some (WebSessionDescriptionHandler None) =>
          throw "Remote media stream undefiend."
      | Some (WebSessionDescriptionHandler (Some remote)) =>
          modify (set_remoteStream (Some {| mediaStream := remote |})) ;;
          r <- gets mediaStreamRendered ;;
          match r with
          | Some {| remoteMediaElement := Some mediaElement |} =>
              perform (StreamInit mediaElement) ;;
              perform StreamOnTrackAdded ;;
              perform StreamOnTrackRemoved ;;
              perform StreamPlay
          | _ => ret tt
          end
      end
  end.

(** The closure [setupSessionEventHandlers(session)] adds to the emitter:
    [session] is the captured parameter, [st] the state the emitter
    delivers.  The five members of [SessionState] leave the [default]
    branch of the switch without a case. *)
Definition stateChangeListener (tr : Transport) (session_ : Session)
    (st : SessionState) : M unit :=
  cur <- gets session ;;
  match cur with
  | Some c =>
      if same_session c session_ then
        match st with
        | SessionState.Initial => ret tt
        | SessionState.Establishing => ret tt
        | SessionState.Established =>
            modify (set_opInProgress Operation.OP_NONE) ;;
            modify (set_callState IN_CALL) ;;
            setupRemoteMedia tr ;;
            emit callestablished ;;
            emit stateChanged
        | SessionState.Terminating
        | SessionState.Terminated =>
            modify (set_session None) ;;
            modify (set_callState REGISTERED) ;;
            modify (set_opInProgress Operation.OP_NONE) ;;
            modify (set_userState UserState.IDLE) ;;
            emit callterminated ;;
            rs <- gets remoteStream ;;
            match rs with
            | Some _ => perform StreamClear
            | None => ret tt
            end ;;
            emit stateChanged
        end
      else ret tt
  | None => ret tt
  end.

(** [setupSessionEventHandlers(session)]: the listener goes to the emitter
    of [this.session], when there is one. *)
Definition setupSessionEventHandlers (session_ : Session) : M unit :=
  cur <- gets session ;;
  match cur with
  | Some c => modify (add_listener (session_ref c, session_))
  | None => ret tt
  end.

(** [x ? x : ''] on a string that may be undefined. *)
Definition or_empty (x : option string) : string :=
  match x with
  | Some s => if String.eqb s "" then "" else s
  | None => ""
  end.

Definition handleIncomingCall (invitation : Invitation) : M unit :=
  cs <- gets callState ;;
  if CallStates_eqb cs REGISTERED then
    modify (set_opInProgress Operation.OP_PROCESS_INVITE) ;;
    modify (set_callState OFFER_RECEIVED) ;;
    modify (set_userState UserState.UAS) ;;
    modify (set_session (Some (AnInvitation invitation))) ;;
    setupSessionEventHandlers (AnInvitation invitation) ;;
    let callerInfo :=
      {| callerId := or_empty (user (uri (remoteIdentity invitation)));
         callerName := displayName (remoteIdentity invitation);
         callerHost := host (uri (remoteIdentity invitation)) |} in
    modify (set_callerInfo (Some callerInfo)) ;;
    emit (incomingcall callerInfo) ;;
    emit stateChanged
  else
    perform (InvitationReject (ref invitation)).

(** [init()], up to its [await]: the user agent is built from the
    configuration and started.  What the transport then does reaches the
    object as inputs of its own. *)
Definition init : M unit :=
  cfg <- gets config ;;
  let sipUri := "sip:" ++ authUserName cfg ++ "@" ++ sipRegistrarHostnameOrIP cfg in
  modify (set_userAgent (Some
    {| agentUri := makeURI sipUri;
       authorizationUsername := authUserName cfg;
       authorizationPassword := authPassword cfg;
       server := webSocketURI cfg |})) ;;
  modify (set_opInProgress Operation.OP_CONNECT) ;;
  perform UserAgentStart.

(** The delegate [onConnect]. *)
Definition onConnect : M unit :=
  modify (set_callState SERVER_CONNECTED) ;;
  emit connected ;;
  ua <- gets userAgent ;;
  match ua with
  | Some a => modify (set_registerer (Some {| agent := a |}))
  | None => ret tt
  end.

(** The delegate [onDisconnect]: [error] is absent, or an error value. *)
Definition onDisconnect (error : option ErrorValue) : M unit :=
  match error with
  | Some e => emit (connectionerror e)
  | None => ret tt
  end.

(** The delegate [onInvite]. *)
Definition onInvite (invitation : Invitation) : M unit :=
  handleIncomingCall invitation.

Definition register : M unit :=
  modify (set_opInProgress Operation.OP_REGISTER) ;;
  r <- gets registerer ;;
  match r with
  | Some _ => perform RegistererRegister
  | None => ret tt
  end.

Definition unregister : M unit :=
  modify (set_opInProgress Operation.OP_UNREGISTER) ;;
  r <- gets registerer ;;
  match r with
  | Some _ => perform (RegistererUnregister true)
  | None => ret tt
  end.

(** [!!x] on an optional boolean. *)
Definition truthy (x : option bool) : bool :=
  match x with
  | Some b => b
  | None => false
  end.

Definition acceptCall (mediaRenderer : option IMediaStreamRenderer) : M unit :=
  match mediaRenderer with
  | Some r => modify (set_mediaStreamRendered (Some r))
  | None => ret tt
  end ;;
  cs <- gets _callState ;;
  op <- gets _opInProgress ;;
  if CallStates_eqb cs OFFER_RECEIVED
     && Operation.eqb op Operation.OP_PROCESS_INVITE then
    modify (set_callState ANSWER_SENT) ;;
    cfg <- gets config ;;
    s <- gets session ;;
    match s with
    | Some (AnInvitation i) =>
        perform (InvitationAccept (ref i) true (truthy (configEnableVideo cfg)))
    | _ => throw "Session not instance of Invitation."
    end
  else
    throw "Something went wront".

Definition rejectCall : M unit :=
  s <- gets session ;;
  match s with
  | None => throw "Session does not exist."
  | Some s =>
      cs <- gets _callState ;;
      if negb (CallStates_eqb cs OFFER_RECEIVED) then
        throw ("Incorrect call State = " ++ CallStates_text cs)
      else
        match s with
        | AnInvitation i => perform (InvitationReject (ref i))
        | _ => throw "Session not instance of Invitation."
        end
  end.

Definition endCall (tr : Transport) : M unit :=
  s <- gets session ;;
  match s with
  | None => throw "Session does not exist."
  | Some s =>
      cs <- gets _callState ;;
      if negb (CallStates_eqb cs ANSWER_SENT) && negb (CallStates_eqb cs IN_CALL) then
        throw ("Incorrect call State = " ++ CallStates_text cs)
      else
        match sessionState tr (session_ref s) with
        | SessionState.Initial =>
            match s with
            | AnInvitation i => perform (InvitationReject (ref i))
            | _ => throw "Session not instance of Invitation."
            end
        | SessionState.Establishing =>
            match s with
            | AnInvitation i => perform (InvitationReject (ref i))
            | _ => throw "Session not instance of Invitation."
            end
        | SessionState.Established => perform (SessionBye (session_ref s))
        | SessionState.Terminating => ret tt
        | SessionState.Terminated => ret tt
        end
  end.

(** ** The object under its inputs *)

(** What reaches the object: a call of the UI layer, or a callback of the
    transport.  [StateChange r st] is the [stateChange] emitter of the
    session with reference [r] delivering [st]. *)
Inductive Input :=
| Init
| OnConnect
| OnDisconnect (error : option ErrorValue)
| OnInvite (invitation : Invitation)
| OnAccept
| OnReject (error : ErrorValue)
| StateChange (r : nat) (st : SessionState)
| Register
| Unregister
| AcceptCall (mediaRenderer : option IMediaStreamRenderer)
| RejectCall
| EndCall.

(** The emitter calls, in the order they were added, the listeners it holds;
    a listener that throws ends the delivery. *)
Fixpoint deliver (tr : Transport) (r : nat) (st : SessionState)
    (ls : list (nat * Session)) : M unit :=
  match ls with
  | [] => ret tt
  | (e, captured) :: rest =>
      when (Nat.eqb e r) (stateChangeListener tr captured st) ;;
      deliver tr r st rest
  end.

Definition step (tr : Transport) (i : Input) : M unit :=
  match i with
  | Init => init
  | OnConnect => onConnect
  | OnDisconnect error => onDisconnect error
  | OnInvite invitation => onInvite invitation
  | OnAccept => onAccept
  | OnReject error => onReject error
  | StateChange r st => ls <- gets listeners ;; deliver tr r st ls
  | Register => register
  | Unregister => unregister
  | AcceptCall mediaRenderer => acceptCall mediaRenderer
  | RejectCall => rejectCall
  | EndCall => endCall tr
  end.

(** The object after a sequence of inputs, each with the transport's objects
    as they are when it arrives.  A method that throws leaves the object as
    it was at the throw. *)
Fixpoint run (inputs : list (Transport * Input)) (u : VoIPUser) : VoIPUser :=
  match inputs with
  | [] => u
  | (tr, i) :: rest => run rest (after (step tr i u))
  end.

(** ** Predicates on objects and inputs *)

(** The call states of a call in progress. *)
Definition in_a_call (c : CallStates) : bool :=
  match c with
  | OFFER_RECEIVED | ANSWER_SENT | IN_CALL => true
  | _ => false
  end.

(** What holds of the object whatever it receives. *)
Record consistent (u : VoIPUser) : Prop := {
  tracked_is_invitation :
    forall s, session u = Some s -> exists i, s = AnInvitation i;
  call_has_session :
    in_a_call (_callState u) = true -> session u <> None;
  session_has_caller :
    session u <> None -> _callerInfo u <> None;
  listener_on_own_emitter :
    forall e c, In (e, c) (listeners u) -> e = session_ref c;
  tracked_is_listened :
    forall s, session u = Some s -> In (session_ref s, s) (listeners u)
}.

(** No input of the sequence is the connect acknowledgment. *)
Definition is_connect (i : Input) : bool :=
  match i with
  | OnConnect => true
  | _ => false
  end.










(** The fields after the [Terminating]/[Terminated] branch of the listener. *)
Definition hung_up (u : VoIPUser) : VoIPUser :=
  set_userState UserState.IDLE
    (set_opInProgress Operation.OP_NONE
       (set_callState REGISTERED (set_session None u))).

Definition hang_up_effects (u : VoIPUser) : list Effect :=
  Emit callterminated ::
  match remoteStream u with
  | Some _ => [StreamClear]
  | None => []
  end ++ [Emit stateChanged].

Definition terminal (st : SessionState) : bool :=
  match st with
  | SessionState.Terminating | SessionState.Terminated => true
  | _ => false
  end.

(** The tracked session is not [s]: another object is tracked, or none. *)
Definition superseded (s : Session) (u : VoIPUser) : bool :=
  match session u with
  | Some c => negb (same_session c s)
  | None => true
  end.

(** ** Fixtures *)

Module Fixtures.

Definition cfg : VoIPUserConfiguration :=
  {| authUserName := "bob"; authPassword := "secret";
     sipRegistrarHostnameOrIP := "pbx.example.com";
     webSocketURI := "wss://pbx.example.com/ws";
     iceServers := []; configEnableVideo := None |}.

Definition renderer : IMediaStreamRenderer :=
  {| remoteMediaElement := Some 7 |}.

Definition alice : Invitation :=
  {| ref := 1;
     remoteIdentity :=
       {| uri := {| user := Some "alice"; host := "example.com" |};
          displayName := "Alice" |} |}.

Definition carol : Invitation :=
  {| ref := 2;
     remoteIdentity :=
       {| uri := {| user := None; host := "example.org" |};
          displayName := "Carol" |} |}.

(** Every session established, with a web handler and a remote stream. *)
Definition established : Transport :=
  {| sessionState := fun _ => SessionState.Established;
     sessionDescriptionHandler :=
       fun _ => Some (WebSessionDescriptionHandler (Some 5)) |}.

(** Sessions that have no description handler yet. *)
Definition bare : Transport :=
  {| sessionState := fun _ => SessionState.Initial;
     sessionDescriptionHandler := fun _ => None |}.

(** [init], the connect acknowledgment, a register the transport accepts. *)
Definition registration : list (Transport * Input) :=
  [(bare, Init); (bare, OnConnect); (bare, Register); (bare, OnAccept)].

(** Alice calls, the call is picked up and established. *)
Definition call : list (Transport * Input) :=
  registration ++
  [(bare, OnInvite alice); (bare, AcceptCall None);
   (established, StateChange 1 SessionState.Established)].

(** Alice's offer is pending when a register exchange completes and Carol's
    invitation replaces the session. *)
Definition replaced : list (Transport * Input) :=
  registration ++
  [(bare, OnInvite alice);
   (bare, Register); (bare, OnAccept);
   (bare, OnInvite carol)].

End Fixtures.

(** ** The rest of the class *)

(** The getter [userState]. *)
Definition userState (u : VoIPUser) : UserState := _userState u.

(** The getter [localMediaStream]; [localStream] is the [localMediaStream]
    of the web handler of a session, by the session's reference. *)
Definition localMediaStream (tr : Transport) (localStream : nat -> MediaStream)
    (u : VoIPUser) : Completion (option MediaStream) :=
  match session u with
  | None => Returned None
  | Some s =>
      match sessionDescriptionHandler tr (session_ref s) with
      | None => Returned None
      | Some OtherSessionDescriptionHandler =>
          Thrown "Session description handler not instance of web SessionDescriptionHandler"
      | Some (WebSessionDescriptionHandler _) =>
          Returned (Some (localStream (session_ref s)))
      end
  end.

(** [onTrackAdded] and [onTrackRemoved] only log. *)
Definition onTrackAdded : M unit := ret tt.
Definition onTrackRemoved : M unit := ret tt.

(** The options of the user agent for a configuration: the URI is what
    [UserAgent.makeURI] makes of [sip:<authUserName>@<sipRegistrarHostnameOrIP>],
    the credentials and the server are the configured ones. *)
Definition agent_of (cfg : VoIPUserConfiguration) : UserAgent :=
  {| agentUri :=
       makeURI ("sip:" ++ authUserName cfg ++ "@" ++ sipRegistrarHostnameOrIP cfg);
     authorizationUsername := authUserName cfg;
     authorizationPassword := authPassword cfg;
     server := webSocketURI cfg |}.

(** What [state.isReady] is after an input, by the two listeners of the
    constructor: the connect acknowledgment sets it, a disconnect with an
    error clears it. *)
Definition ready_after (ready : bool) (i : Input) : bool :=
  match i with
  | OnConnect => true
  | OnDisconnect (Some _) => false
  | _ => ready
  end.

Definition ready_after_all (inputs : list (Transport * Input)) (ready : bool) : bool :=
  fold_left (fun b ti => ready_after b (snd ti)) inputs ready.

(** The connect acknowledgments and the disconnects. *)
Definition is_connection_event (i : Input) : bool :=
  match i with
  | OnConnect | OnDisconnect _ => true
  | _ => false
  end.

(** The inputs that are calls of the UI layer, not callbacks. *)
Definition is_command (i : Input) : bool :=
  match i with
  | Init | Register | Unregister | AcceptCall _ | RejectCall | EndCall => true
  | _ => false
  end.

(** The commands that hand a session over to the transport to be ended:
    sip.js reports the session's new state to the listeners before such a
    command returns. *)
Definition ends_session (e : Effect) : bool :=
  match e with
  | InvitationReject _ | SessionBye _ => true
  | _ => false
  end.

(** The calls on objects of the transport, among the effects. *)
Definition is_transport_command (e : Effect) : bool :=
  match e with
  | UserAgentStart | RegistererRegister | RegistererUnregister _
  | InvitationAccept _ _ _ | InvitationReject _ | SessionBye _ => true
  | _ => false
  end.

(** The fields after the [Established] branch of the listener, before
    [setupRemoteMedia]. *)
Definition picked_up (u : VoIPUser) : VoIPUser :=
  set_callState IN_CALL (set_opInProgress Operation.OP_NONE u).

(** The caller info [handleIncomingCall] reads off an invitation. *)
Definition caller_of (invitation : Invitation) : ICallerInfo :=
  {| callerId := or_empty (user (uri (remoteIdentity invitation)));
     callerName := displayName (remoteIdentity invitation);
     callerHost := host (uri (remoteIdentity invitation)) |}.

(** ** The call actions of [CallProvider] *)

Module CallProvider.

(** The members of [actions] in the ready context value. *)
Inductive Action :=
| mute | unmute | pause | resume | end_ | pickUp | reject.

(** What each action does to [voipClient]: the first four are stubs that
    return [undefined]; the others call the client, [pickUp] without a
    renderer. *)
Definition act (tr : Transport) (a : Action) : M unit :=
  match a with
  | mute => ret tt
  | unmute => ret tt
  | pause => ret tt
  | resume => ret tt
  | end_ => endCall tr
  | pickUp => acceptCall None
  | reject => rejectCall
  end.

End CallProvider.

(** What every input keeps of the configuration, the agent and the role. *)
Record settled (cfg : VoIPUserConfiguration) (u : VoIPUser) : Prop := {
  config_kept : config u = cfg;
  agent_from_config :
    forall a, userAgent u = Some a -> a = agent_of cfg;
  registerer_from_config :
    forall r, registerer u = Some r -> agent r = agent_of cfg;
  registerer_has_agent :
    registerer u <> None -> userAgent u <> None;
  uas_iff_session :
    session u <> None <-> _userState u = UserState.UAS
}.

(** Two objects that differ at most in the remote stream. *)
Definition same_but_stream (a b : VoIPUser) : Prop :=
  set_remoteStream None a = set_remoteStream None b.

(** The fields after [handleIncomingCall] has taken an invitation. *)
Definition offered (invitation : Invitation) (u : VoIPUser) : VoIPUser :=
  set_callerInfo (Some (caller_of invitation))
    (add_listener (ref invitation, AnInvitation invitation)
       (set_session (Some (AnInvitation invitation))
          (set_userState UserState.UAS
             (set_callState OFFER_RECEIVED
                (set_opInProgress Operation.OP_PROCESS_INVITE u))))).

(** The renderer after [acceptCall] has looked at its argument. *)
Definition rendered (mediaRenderer : option IMediaStreamRenderer)
    (u : VoIPUser) : VoIPUser :=
  match mediaRenderer with
  | Some r => set_mediaStreamRendered (Some r) u
  | None => u
  end.

(** What [setupRemoteMedia] does with the stream it has wrapped: it plays it
    on the renderer's element, when there is one. *)
Definition playback (u : VoIPUser) : list Effect :=
  match mediaStreamRendered u with
  | Some {| remoteMediaElement := Some mediaElement |} =>
      [StreamInit mediaElement; StreamOnTrackAdded; StreamOnTrackRemoved;
       StreamPlay]
  | _ => []
  end.

(** ** Values and objects of the REST and data layers *)

Module Js.

(** The JavaScript values the routes and hooks below handle. *)
Inductive Value :=
| undefined
| str (s : string)
| boolean (b : bool)
| date (t : nat).

(** Truthiness: [undefined], the empty string and [false] are falsy. *)
Definition truthy (v : Value) : bool :=
  match v with
  | undefined => false
  | str s => negb (String.eqb s "")
  | boolean b => b
  | date _ => true
  end.

Definition Value_eqb (a b : Value) : bool :=
  match a, b with
  | undefined, undefined => true
  | str x, str y => String.eqb x y
  | boolean x, boolean y => Bool.eqb x y
  | date x, date y => Nat.eqb x y
  | _, _ => false
  end.

(** An object: its own properties, in insertion order. *)
Definition Obj := list (string * Value).

(** [o.k]: [undefined] when [o] has no property [k]. *)
Fixpoint get (o : Obj) (k : string) : Value :=
  match o with
  | [] => undefined
  | (k', v) :: rest => if String.eqb k' k then v else get rest k
  end.

(** [{...o, k: v}], also [o.k = v]: the property keeps its place when [o]
    has it, and comes last otherwise. *)
Fixpoint set (o : Obj) (k : string) (v : Value) : Obj :=
  match o with
  | [] => [(k, v)]
  | (k', v') :: rest =>
      if String.eqb k' k then (k', v) :: rest else (k', v') :: set rest k v
  end.

(** [s.split(sep)] for a separator of one character. *)
Fixpoint split (sep : Ascii.ascii) (s : string) : list string :=
  match s with
  | EmptyString => [EmptyString]
  | String c rest =>
      if Ascii.eqb c sep then EmptyString :: split sep rest
      else
        match split sep rest with
        | piece :: pieces => String c piece :: pieces
        | [] => [String c EmptyString]
        end
  end.

(** No character of [s] is [sep]. *)
Fixpoint free_of (sep : Ascii.ascii) (s : string) : bool :=
  match s with
  | EmptyString => true
  | String c rest => negb (Ascii.eqb c sep) && free_of sep rest
  end.

(** The character [/]. *)
Definition slash : Ascii.ascii := Ascii.ascii_of_nat 47.

(** The double quote, for the messages that contain it. *)
Definition quote : string := String (Ascii.ascii_of_nat 34) EmptyString.

End Js.

(** ** The routes [emoji-custom.create], [.update] and [.delete] *)

Module EmojiCustom.

(** The file [getUploadFormData] hands over. *)
Record UploadedFile := { fileBuffer : list nat; mimetype : string }.

(** What the routes read of a stored emoji. *)
Record Emoji := { name : string; extension : string }.

(** The Meteor methods the routes call, with their arguments. *)
Inductive MethodCall :=
| insertOrUpdateEmoji (emojiData : Js.Obj)
| uploadEmojiCustom (binaryContent : list nat) (contentType : string)
    (emojiData : Js.Obj)
| deleteEmojiCustom (emojiId : Js.Value).

Inductive Response :=
| success
| failure (message : string).

(** How a route ends: with a response, with a [Meteor.Error], or with the
    [TypeError] of a property read on [undefined]. *)
Inductive Ending :=
| responded (r : Response)
| MeteorError (error : string) (reason : option string)
| TypeError.

(** A route's run: how it ends, and the methods it has called, in order. *)
Record Run := { ending : Ending; calls : list MethodCall }.

Definition not_an_image : Ending :=
  MeteorError "emoji-is-not-image"
    (Some "Emoji file provided cannot be uploaded since it's not an image").

(** [const [, extension] = mimetype.split('/')]. *)
Definition extension_of (mimetype_ : string) : Js.Value :=
  match Js.split Js.slash mimetype_ with
  | _ :: e :: _ => Js.str e
  | _ => Js.undefined
  end.

(** [fields.aliases || '']. *)
Definition aliases_or_empty (fields : Js.Obj) : Js.Value :=
  if Js.truthy (Js.get fields "aliases") then Js.get fields "aliases"
  else Js.str "".

Section Routes.

(** [Media.isImage] and [EmojiCustom.findOneById], as the service and the
    collection answer. *)
Variable isImage : list nat -> bool.
Variable findOneById : Js.Value -> option Emoji.

(** The handler of [emoji-custom.create], on what [getUploadFormData]
    returns. *)
Definition create (emoji : UploadedFile) (fields : Js.Obj) : Run :=
  if negb (isImage (fileBuffer emoji)) then
    {| ending := not_an_image; calls := [] |}
  else
    let fields := Js.set fields "extension" (extension_of (mimetype emoji)) in
    let emojiData :=
      Js.set (Js.set fields "newFile" (Js.boolean true))
             "aliases" (aliases_or_empty fields) in
    {| ending := responded success;
       calls := [insertOrUpdateEmoji emojiData;
                 uploadEmojiCustom (fileBuffer emoji) (mimetype emoji) emojiData] |}.

(** The handler of [emoji-custom.update]; [emoji] is absent when no file
    came with the form. *)
Definition update (emoji : option UploadedFile) (fields : Js.Obj) : Run :=
  if negb (Js.truthy (Js.get fields "_id")) then
    {| ending :=
         MeteorError ("The required " ++ Js.quote ++ "_id" ++ Js.quote
                      ++ " query param is missing.") None;
       calls := [] |}
  else
    match findOneById (Js.get fields "_id") with
    | None => {| ending := MeteorError "Emoji not found." None; calls := [] |}
    | Some emojiToUpdate =>
        let fields := Js.set fields "previousName" (Js.str (name emojiToUpdate)) in
        let fields :=
          Js.set fields "previousExtension" (Js.str (extension emojiToUpdate)) in
        let fields := Js.set fields "aliases" (aliases_or_empty fields) in
        let newFile :=
          match emoji with
          | Some f => negb (Nat.eqb (List.length (fileBuffer f)) 0)
          | None => false
          end in
        if Js.truthy (Js.get fields "newFile") then
          match emoji with
          | None => {| ending := TypeError; calls := [] |}
          | Some f =>
              if negb (isImage (fileBuffer f)) then
                {| ending := not_an_image; calls := [] |}
              else
                let fields :=
                  Js.set fields "extension" (extension_of (mimetype f)) in
                let emojiData := Js.set fields "newFile" (Js.boolean newFile) in
                {| ending := responded success;
                   calls := [insertOrUpdateEmoji emojiData;
                             uploadEmojiCustom (fileBuffer f) (mimetype f)
                               emojiData] |}
          end
        else
          let fields :=
            Js.set fields "extension" (Js.str (extension emojiToUpdate)) in
          {| ending := responded success;
             calls := [insertOrUpdateEmoji
                         (Js.set fields "newFile" (Js.boolean newFile))] |}
    end.

End Routes.

(** The handler of [emoji-custom.delete], on the body parameters. *)
Definition delete (bodyParams : Js.Obj) : Run :=
  let emojiId := Js.get bodyParams "emojiId" in
  if negb (Js.truthy emojiId) then
    {| ending :=
         responded (failure ("The " ++ Js.quote ++ "emojiId" ++ Js.quote
                             ++ " params is required!"));
       calls := [] |}
  else
    {| ending := responded success; calls := [deleteEmojiCustom emojiId] |}.

End EmojiCustom.

(** ** The finders of [LivechatDepartmentAgentsRaw] *)

Module LivechatDepartmentAgents.

(** What a finder puts on a field of its filter: a value, or [{ $in: [...] }]. *)
Inductive Condition :=
| equals (v : Js.Value)
| in_ (values : list string).

Definition FilterQuery := list (string * Condition).

(** A call of [this.find]: with the query alone, or with options. *)
Record Find := { query : FilterQuery; options : option Js.Obj }.

Definition findUsersInQueue (usersList : list string)
    (options_ : option Js.Obj) : Find :=
  let query_ : FilterQuery :=
    match usersList with
    | [] => []
    | _ :: _ => [("username", in_ usersList)]
    end in
  {| query := query_; options := options_ |}.

Definition findByAgentId (agentId : string) : Find :=
  {| query := [("agentId", equals (Js.str agentId))]; options := None |}.

Definition findAgentsByDepartmentId (departmentId : string)
    (options_ : option Js.Obj) : Find :=
  {| query := [("departmentId", equals (Js.str departmentId))];
     options := options_ |}.

Definition findActiveDepartmentsByAgentId (agentId : string)
    (options_ : option Js.Obj) : Find :=
  {| query := [("agentId", equals (Js.str agentId));
               ("departmentEnabled", equals (Js.boolean true))];
     options := options_ |}.

(** [options = {}]: an absent argument is the empty object. *)
Definition findByDepartmentIds (departmentIds : list string)
    (options_ : option Js.Obj) : Find :=
  {| query := [("departmentId", in_ departmentIds)];
     options := Some match options_ with
                     | Some o => o
                     | None => []
                     end |}.

Definition findAgentsByAgentIdAndBusinessHourId (_agentId _businessHourId : string)
    : list Js.Obj := [].

(** The documents a filter selects, as the database does for documents
    whose fields hold plain values: the field equals the value, or is one
    of the listed strings. *)
Definition satisfies (document : Js.Obj) (c : string * Condition) : bool :=
  match snd c with
  | equals v => Js.Value_eqb (Js.get document (fst c)) v
  | in_ values =>
      match Js.get document (fst c) with
      | Js.str s => existsb (String.eqb s) values
      | _ => false
      end
  end.

Definition selects (q : FilterQuery) (document : Js.Obj) : bool :=
  forallb (satisfies document) q.

End LivechatDepartmentAgents.

(** ** The hook [useUsersByTimeOfTheDay] *)

Module UsersByTimeOfTheDay.

Section Query.

(** [getPeriodRange] of [dataView/periods], which is not among the sources,
    and the endpoint the hook obtains: the response to a range, if any. *)
Variable Period : Type.
Variable getPeriodRange : Period -> bool -> nat * nat.
Variable getUsersByTimeOfTheDay : nat -> nat -> option Js.Obj.

(** The query function the hook passes to [useQuery]. *)
Definition queryFn (period : Period) (utc : bool) : option Js.Obj :=
  let (start, end_) := getPeriodRange period utc in
  match getUsersByTimeOfTheDay start end_ with
  | Some response =>
      Some (Js.set (Js.set response "start" (Js.date start)) "end" (Js.date end_))
  | None => None
  end.

End Query.

(** [refetchInterval], in milliseconds. *)
Definition refetchInterval : nat := 5 * 60 * 1000.

End UsersByTimeOfTheDay.

(** ** Reasoning about methods *)

Ltac unfold_monad :=
  unfold bind, ret, throw, gets, modify, perform, when in *.

Ltac unfold_methods :=
  unfold step, onInvite, handleIncomingCall, setupSessionEventHandlers,
    stateChangeListener, setupRemoteMedia, onAccept, onReject, onConnect,
    onDisconnect, init, register, unregister, acceptCall, rejectCall,
    endCall, emit, callerInfo, callState, operationInProgress in *.

(** Case analysis on whatever a method branches on, innermost test first. *)
Ltac branch :=
  repeat (cbn in *;
          match goal with
          | |- context [match ?x with _ => _ end] =>
              lazymatch x with
              | context [match _ with _ => _ end] => fail
              | _ => destruct x eqn:?
              end
          end).

Lemma CallStates_eqb_eq (a b : CallStates) :
  CallStates_eqb a b = true <-> a = b.
Proof. destruct a, b; cbn; split; intro H; try reflexivity; discriminate H. Qed.

Lemma CallStates_eqb_neq (a b : CallStates) :
  CallStates_eqb a b = false <-> a <> b.
Proof.
  destruct a, b; cbn; split; intro H; try reflexivity;
    try discriminate H; try (intro E; discriminate E); exfalso; apply H; reflexivity.
Qed.

Lemma Operation_eqb_eq (a b : Operation) :
  Operation.eqb a b = true <-> a = b.
Proof. destruct a, b; cbn; split; intro H; try reflexivity; discriminate H. Qed.

Lemma Operation_eqb_neq (a b : Operation) :
  Operation.eqb a b = false <-> a <> b.
Proof.
  destruct a, b; cbn; split; intro H; try reflexivity;
    try discriminate H; try (intro E; discriminate E); exfalso; apply H; reflexivity.
Qed.

Lemma or_empty_Some (s : string) : or_empty (Some s) = s.
Proof.
  unfold or_empty. destruct (String.eqb_spec s ""); [symmetry; assumption | reflexivity].
Qed.

(** A property of the object that [m] establishes and [f] preserves holds
    after [m] then [f], wherever a throw stops them. *)
Lemma after_bind {A B} (P : VoIPUser -> Prop) (m : M A) (f : A -> M B) u :
  P (after (m u)) ->
  (forall a u1, P u1 -> P (after (f a u1))) ->
  P (after (bind m f u)).
Proof.
  intros Hm Hf. unfold bind.
  destruct (m u) as [[a|msg] u1 e1]; cbn in *; [|exact Hm].
  specialize (Hf a u1 Hm). destruct (f a u1). exact Hf.
Qed.

(** *** What holds of the object whatever it receives *)

Lemma construct_consistent cfg mediaRenderer :
  consistent (construct cfg mediaRenderer).
Proof.
  constructor; cbn; try discriminate; contradiction.
Qed.

Ltac close_consistent :=
  match goal with
  | H : consistent _ |- consistent _ =>
      destruct H as [Hinv Hcall Hinfo Hown Hlis];
      constructor; cbn in *; intros;
      repeat match goal with
             | E : Some _ = Some _ |- _ => injection E as E; subst
             | E : _ /\ _ |- _ => destruct E
             end;
      try discriminate; try congruence; eauto
  end.

Lemma stateChangeListener_consistent tr s st u :
  consistent u -> consistent (after (stateChangeListener tr s st u)).
Proof.
  intro H. unfold_methods. unfold_monad. destruct u; branch; close_consistent.
Qed.

Lemma deliver_consistent tr r st ls :
  forall u, consistent u -> consistent (after (deliver tr r st ls u)).
Proof.
  induction ls as [|[e c] ls IH]; intros u H; [exact H|].
  cbn [deliver]. apply after_bind.
  - unfold when. destruct (Nat.eqb e r); [|exact H].
    apply stateChangeListener_consistent, H.
  - intros _ u1 H1. apply IH, H1.
Qed.

Lemma step_consistent tr i u :
  consistent u -> consistent (after (step tr i u)).
Proof.
  intro H. destruct i;
    try solve [unfold_methods; unfold_monad; destruct u; branch; close_consistent].
  - (* OnInvite *)
    unfold_methods. unfold_monad. destruct u; branch.
    + destruct H as [Hinv Hcall Hinfo Hown Hlis].
      constructor; cbn in *; intros.
      * injection H as <-. eauto.
      * discriminate.
      * discriminate.
      * apply in_app_or in H. destruct H as [H|[H|[]]]; [eauto|].
        injection H as <- <-. reflexivity.
      * injection H as <-. apply in_or_app. right. left. reflexivity.
    + exact H.
  - (* StateChange *)
    cbn [step]. apply after_bind; [exact H|].
    intros ls u1 H1. apply deliver_consistent, H1.
  - (* AcceptCall *)
    assert (Hoffer : _callState u = OFFER_RECEIVED ->
                     exists i, session u = Some (AnInvitation i)).
    { intro E. destruct H as [Hinv Hcall _ _ _].
      destruct (session u) as [s|] eqn:Hs.
      - destruct (Hinv s eq_refl) as [i ->]. exists i. reflexivity.
      - exfalso. apply Hcall; [rewrite E|]; reflexivity. }
    unfold_methods. unfold_monad. destruct u; branch;
      try match goal with
          | E : _ && _ = true |- _ =>
              apply andb_prop in E; destruct E as [E _];
              apply CallStates_eqb_eq in E; destruct (Hoffer E) as [? ?]
          end;
      try discriminate; close_consistent.
Qed.

Lemma run_consistent inputs :
  forall u, consistent u -> consistent (run inputs u).
Proof.
  induction inputs as [|[tr i] rest IH]; intros u H; cbn [run].
  - exact H.
  - apply IH, step_consistent, H.
Qed.

Lemma reachable_consistent cfg mediaRenderer inputs :
  consistent (run inputs (construct cfg mediaRenderer)).
Proof. apply run_consistent, construct_consistent. Qed.

(** *** The registerer appears with the connect acknowledgment only *)

Lemma stateChangeListener_registerer tr s st u :
  registerer (after (stateChangeListener tr s st u)) = registerer u.
Proof. unfold_methods. unfold_monad. branch; cbn; congruence. Qed.

Lemma deliver_registerer tr r st ls :
  forall u, registerer (after (deliver tr r st ls u)) = registerer u.
Proof.
  induction ls as [|[e c] ls IH]; intro u; [reflexivity|].
  cbn [deliver].
  apply (after_bind (fun u' => registerer u' = registerer u)).
  - unfold when. destruct (Nat.eqb e r); [|reflexivity].
    apply stateChangeListener_registerer.
  - intros _ u1 H1. rewrite IH. exact H1.
Qed.

Lemma step_registerer tr i u :
  i <> OnConnect -> registerer (after (step tr i u)) = registerer u.
Proof.
  intro H. destruct i; try (exfalso; apply H; reflexivity);
    try solve [unfold_methods; unfold_monad; branch; cbn; congruence].
  cbn [step]. apply (after_bind (fun u' => registerer u' = registerer u)).
  - reflexivity.
  - intros ls u1 H1. rewrite deliver_registerer. exact H1.
Qed.


(** *** A callback of the tracked session's emitter *)

(** With [m] and the rest known, so is [m] then the rest. *)
Lemma bind_returned {A B} (m : M A) (f : A -> M B) u a u1 e1 c u2 e2 :
  m u = {| completion := Returned a; after := u1; effects := e1 |} ->
  f a u1 = {| completion := c; after := u2; effects := e2 |} ->
  bind m f u = {| completion := c; after := u2; effects := e1 ++ e2 |}.
Proof. intros Hm Hf. unfold bind. rewrite Hm, Hf. reflexivity. Qed.

(** A listener whose captured session is not the tracked one returns at its
    first test. *)
Lemma stateChangeListener_superseded tr s st u :
  superseded s u = true ->
  stateChangeListener tr s st u =
    {| completion := Returned tt; after := u; effects := [] |}.
Proof.
  unfold superseded, stateChangeListener. unfold_monad. cbn.
  destruct (session u) as [c|]; [|reflexivity].
  intro H. apply negb_true_iff in H. rewrite H. reflexivity.
Qed.

(** Once no session is tracked, every listener is discarded. *)
Lemma deliver_untracked tr r st ls u :
  session u = None ->
  deliver tr r st ls u =
    {| completion := Returned tt; after := u; effects := [] |}.
Proof.
  intro H. induction ls as [|[e c] ls IH]; [reflexivity|].
  cbn [deliver].
  apply (bind_returned _ _ u tt u [] (Returned tt) u []); [|exact IH].
  unfold when. destruct (Nat.eqb e r); [|reflexivity].
  apply stateChangeListener_superseded. unfold superseded. rewrite H. reflexivity.
Qed.

(** The listeners of an emitter other than the tracked session's are all
    discarded. *)
Lemma deliver_stale tr r st ls u :
  (forall e c, In (e, c) ls -> e = session_ref c) ->
  (forall s, session u = Some s -> session_ref s <> r) ->
  deliver tr r st ls u =
    {| completion := Returned tt; after := u; effects := [] |}.
Proof.
  intros Hown Hcur. induction ls as [|[e c] ls IH]; [reflexivity|].
  cbn [deliver].
  apply (bind_returned _ _ u tt u [] (Returned tt) u []).
  - unfold when. destruct (Nat.eqb_spec e r) as [E|E]; [|reflexivity].
    apply stateChangeListener_superseded. unfold superseded.
    destruct (session u) as [cur|] eqn:Hs; [|reflexivity].
    apply negb_true_iff. unfold same_session. apply Nat.eqb_neq.
    intro E'. apply (Hcur cur eq_refl). rewrite E', <- E.
    symmetry. apply Hown. left. reflexivity.
  - apply IH. intros e' c' Hin. apply Hown. right. exact Hin.
Qed.

Lemma stateChangeListener_terminal tr c st u s :
  session u = Some s -> same_session s c = true -> terminal st = true ->
  stateChangeListener tr c st u =
    {| completion := Returned tt; after := hung_up u;
       effects := hang_up_effects u |}.
Proof.
  intros Hs Hc Hst. unfold stateChangeListener, hang_up_effects, hung_up.
  unfold_methods. unfold_monad. cbn. rewrite Hs. cbn. rewrite Hc.
  destruct st; try discriminate Hst; cbn;
    destruct (remoteStream u); reflexivity.
Qed.

(** The first listener of the tracked session's emitter hangs up; the others
    then find no session tracked. *)
Lemma deliver_terminal tr st ls u s :
  session u = Some s ->
  (forall e c, In (e, c) ls -> e = session_ref c) ->
  (exists c, In (session_ref s, c) ls) ->
  terminal st = true ->
  deliver tr (session_ref s) st ls u =
    {| completion := Returned tt; after := hung_up u;
       effects := hang_up_effects u |}.
Proof.
  intros Hs Hown Hin Hst.
  induction ls as [|[e c] ls IH]; [destruct Hin as [? []]|].
  cbn [deliver]. unfold when.
  destruct (Nat.eqb_spec e (session_ref s)) as [E|E].
  - assert (Hc : same_session s c = true).
    { unfold same_session. apply Nat.eqb_eq. rewrite <- E.
      apply Hown. left. reflexivity. }
    rewrite <- (app_nil_r (hang_up_effects u)).
    apply (bind_returned _ _ u tt (hung_up u)).
    + apply (stateChangeListener_terminal tr c st u s Hs Hc Hst).
    + apply deliver_untracked. reflexivity.
  - apply (bind_returned _ _ u tt u [] (Returned tt)); [reflexivity|].
    apply IH.
    + intros e' c' H. apply Hown. right. exact H.
    + destruct Hin as [c' [H|H]]; [|exists c'; exact H].
      exfalso. apply E. congruence.
Qed.
(** ** C1: the register/unregister exchange and the operation in progress *)

(** C1, as stated, fails: after [init], the connect acknowledgment and a
    register the transport accepts, [callState] is the stable [REGISTERED]
    while [operationInProgress] is still [OP_REGISTER], not [OP_NONE]. *)
Lemma registered_with_operation_in_progress :
  let u := run Fixtures.registration (construct Fixtures.cfg None) in
  callState u = REGISTERED /\
  operationInProgress u = Operation.OP_REGISTER /\
  operationInProgress u <> Operation.OP_NONE.
Proof. cbn. repeat split. discriminate. Qed.

(** C1, amended: [onAccept] and [onReject] never write
    [operationInProgress].  After an accepted register (unregister) exchange
    [callState] is [REGISTERED] ([UNREGISTERED]) and [operationInProgress] is
    still [OP_REGISTER] ([OP_UNREGISTER]); a rejected exchange changes no
    field at all and emits the matching error event; in particular after
    connect followed by a successful register [callState] is [REGISTERED]
    and [operationInProgress] is [OP_REGISTER]. *)
Theorem register_exchange_keeps_operationInProgress :
  forall (u : VoIPUser) (error : ErrorValue),
    operationInProgress (after (onAccept u)) = operationInProgress u /\
    operationInProgress (after (onReject error u)) = operationInProgress u /\
    (let u' := after (onAccept (after (register u))) in
     callState u' = REGISTERED /\
     operationInProgress u' = Operation.OP_REGISTER) /\
    (let u' := after (onAccept (after (unregister u))) in
     callState u' = UNREGISTERED /\
     operationInProgress u' = Operation.OP_UNREGISTER) /\
    (let r := onReject error (after (register u)) in
     after r = after (register u) /\
     effects r = [Emit (registrationerror error)]) /\
    (let r := onReject error (after (unregister u)) in
     after r = after (unregister u) /\
     effects r = [Emit (unregistrationerror error)]) /\
    (forall cfg mediaRenderer tr,
        let u' := run [(tr, Init); (tr, OnConnect); (tr, Register); (tr, OnAccept)]
                      (construct cfg mediaRenderer) in
        callState u' = REGISTERED /\
        operationInProgress u' = Operation.OP_REGISTER).
Proof.
  intros u error. repeat split;
    try (unfold_methods; unfold_monad; branch; reflexivity).
Qed.

(** ** C2: when caller info is defined *)

(** C2, as stated, fails: once the call with Alice has been established and
    the transport reports it terminated, [callState] is back to [REGISTERED]
    while the stored caller info is still Alice's. *)
Lemma caller_info_outlives_call :
  let u := run (Fixtures.call ++
                [(Fixtures.established, StateChange 1 SessionState.Terminated)])
               (construct Fixtures.cfg None) in
  callState u = REGISTERED /\
  in_a_call (callState u) = false /\
  _callerInfo u =
    Some {| callerId := "alice"; callerName := "Alice";
            callerHost := "example.com" |}.
Proof. cbn. repeat split. Qed.

(** C2, amended: for every sequence of inputs, the stored caller info is
    defined whenever [callState] is [OFFER_RECEIVED], [ANSWER_SENT] or
    [IN_CALL] (the converse is not claimed); the [callerInfo] accessor never
    throws and carries caller info if and only if [callState] is [IN_CALL];
    and when the emitter of the tracked session reports [Terminating] or
    [Terminated] from [IN_CALL], [callState] returns to [REGISTERED], the
    session is dropped, [callterminated] then [stateChanged] are emitted,
    with the remote stream cleared in between, and the accessor carries no
    caller info. *)
Theorem caller_info_defined_during_call :
  forall cfg mediaRenderer (inputs : list (Transport * Input)),
    let u := run inputs (construct cfg mediaRenderer) in
    (in_a_call (callState u) = true -> _callerInfo u <> None) /\
    (exists v, callerInfo u = Returned v /\
               (infoCallerInfo v <> None <-> callState u = IN_CALL)) /\
    (forall tr s st,
        callState u = IN_CALL -> session u = Some s -> terminal st = true ->
        let r := step tr (StateChange (session_ref s) st) u in
        completion r = Returned tt /\
        callState (after r) = REGISTERED /\
        session (after r) = None /\
        effects r = hang_up_effects u /\
        callerInfo (after r) =
          Returned {| infoState := REGISTERED; infoCallerInfo := None;
                      infoUserState := UserState.IDLE |}).
Proof.
  intros cfg mediaRenderer inputs u.
  pose proof (reachable_consistent cfg mediaRenderer inputs) as H.
  fold u in H. destruct H as [Hinv Hcall Hinfo Hown Hlis].
  assert (Hdef : in_a_call (callState u) = true -> _callerInfo u <> None).
  { intro Hc. apply Hinfo, Hcall, Hc. }
  split; [exact Hdef|]. split.
  - unfold callerInfo. destruct (CallStates_eqb (callState u) IN_CALL) eqn:E.
    + apply CallStates_eqb_eq in E.
      destruct (_callerInfo u) as [c|] eqn:Hc.
      * eexists. split; [reflexivity|]. cbn. split; [intros _; exact E|discriminate].
      * exfalso. apply Hdef; [rewrite E|]; reflexivity.
    + apply CallStates_eqb_neq in E.
      eexists. split; [reflexivity|]. cbn. split; [intro N; exfalso; apply N; reflexivity|].
      intro N. exfalso. apply E, N.
  - intros tr s st _ Hs Hst r.
    subst r. cbn [step].
    rewrite (bind_returned _ _ u (listeners u) u [] _ _ _ eq_refl
               (deliver_terminal tr st (listeners u) u s Hs Hown
                  (ex_intro _ s (Hlis s Hs)) Hst)).
    repeat split.
Qed.

(** The amended C2 on the call with Alice, hung up by the transport. *)
Lemma caller_info_defined_during_call_witness :
  let u := run Fixtures.call (construct Fixtures.cfg None) in
  callState u = IN_CALL /\
  _callerInfo u <> None /\
  callState
    (after (step Fixtures.established
              (StateChange 1 SessionState.Terminated) u)) = REGISTERED.
Proof.
  pose proof (caller_info_defined_during_call Fixtures.cfg None Fixtures.call)
    as (Hdef & _ & Hterm).
  split; [reflexivity|]. split.
  - apply Hdef. reflexivity.
  - apply (Hterm Fixtures.established (AnInvitation Fixtures.alice)
             SessionState.Terminated); reflexivity.
Defined.

(** ** C3: the [callerInfo] accessor outside a call *)

(** C3, as stated, fails: on a freshly constructed object, whose [callState]
    is [IDLE], reading [callerInfo] returns a value. *)
Lemma callerInfo_returns_when_idle :
  callState (construct Fixtures.cfg None) <> IN_CALL /\
  callerInfo (construct Fixtures.cfg None) =
    Returned {| infoState := IDLE; infoCallerInfo := None;
                infoUserState := UserState.IDLE |}.
Proof. split; [discriminate|reflexivity]. Qed.

(** C3, amended: reading [callerInfo] while [callState] is not [IN_CALL]
    succeeds and returns the call state and the user state, without caller
    info; the access fails exactly when [callState] is [IN_CALL] and no
    caller info is stored. *)
Theorem callerInfo_outside_call :
  forall u : VoIPUser,
    (callState u <> IN_CALL ->
     callerInfo u =
       Returned {| infoState := callState u; infoCallerInfo := None;
                   infoUserState := _userState u |}) /\
    ((exists msg, callerInfo u = Thrown msg) <->
     callState u = IN_CALL /\ _callerInfo u = None).
Proof.
  intro u. unfold callerInfo.
  destruct (CallStates_eqb (callState u) IN_CALL) eqn:E.
  - apply CallStates_eqb_eq in E. split; [intro N; exfalso; apply N, E|].
    destruct (_callerInfo u); split.
    + intros [msg H]. discriminate H.
    + intros [_ H]. discriminate H.
    + intros _. split; [exact E|reflexivity].
    + intros _. eexists. reflexivity.
  - apply CallStates_eqb_neq in E. split; [reflexivity|]. split.
    + intros [msg H]. discriminate H.
    + intros [H _]. exfalso. apply E, H.
Qed.

(** The amended C3 while Alice's offer is pending. *)
Lemma callerInfo_outside_call_witness :
  let u := run (Fixtures.registration ++ [(Fixtures.bare, OnInvite Fixtures.alice)])
               (construct Fixtures.cfg None) in
  callState u <> IN_CALL /\
  callerInfo u =
    Returned {| infoState := OFFER_RECEIVED; infoCallerInfo := None;
                infoUserState := UserState.UAS |}.
Proof.
  cbv zeta. split; [discriminate|].
  apply (proj1 (callerInfo_outside_call
                  (run (Fixtures.registration ++
                        [(Fixtures.bare, OnInvite Fixtures.alice)])
                       (construct Fixtures.cfg None)))).
  discriminate.
Defined.

(** ** C4: guard violations of the commands *)

(** C4, as stated, fails: [acceptCall] with a renderer on a freshly
    constructed object ([callState] is [IDLE]) throws, and the object is not
    what it was: the renderer has been stored. *)
Lemma acceptCall_failure_stores_renderer :
  let u := construct Fixtures.cfg None in
  let r := acceptCall (Some Fixtures.renderer) u in
  callState u <> OFFER_RECEIVED /\
  completion r = Thrown "Something went wront" /\
  mediaStreamRendered u = None /\
  mediaStreamRendered (after r) = Some Fixtures.renderer /\
  after r <> u.
Proof. cbn. repeat split; discriminate. Qed.

Lemma rejectCall_throws_unchanged u msg :
  completion (rejectCall u) = Thrown msg ->
  after (rejectCall u) = u /\ effects (rejectCall u) = [].
Proof.
  unfold_methods. unfold_monad. branch; intro H; try discriminate H; split; reflexivity.
Qed.

Lemma endCall_throws_unchanged tr u msg :
  completion (endCall tr u) = Thrown msg ->
  after (endCall tr u) = u /\ effects (endCall tr u) = [].
Proof.
  unfold_methods. unfold_monad. branch; intro H; try discriminate H; split; reflexivity.
Qed.

(** The guard of [acceptCall]. *)
Lemma acceptCall_guard_fails mediaRenderer u :
  CallStates_eqb (_callState u) OFFER_RECEIVED
  && Operation.eqb (_opInProgress u) Operation.OP_PROCESS_INVITE = false ->
  acceptCall mediaRenderer u =
    {| completion := Thrown "Something went wront";
       after := match mediaRenderer with
                | Some r => set_mediaStreamRendered (Some r) u
                | None => u
                end;
       effects := [] |}.
Proof.
  intro H. unfold acceptCall. unfold_monad.
  destruct mediaRenderer; cbn; rewrite H; reflexivity.
Qed.

Lemma acceptCall_guard_holds mediaRenderer u i :
  CallStates_eqb (_callState u) OFFER_RECEIVED
  && Operation.eqb (_opInProgress u) Operation.OP_PROCESS_INVITE = true ->
  session u = Some (AnInvitation i) ->
  completion (acceptCall mediaRenderer u) = Returned tt.
Proof.
  intros H Hs. unfold acceptCall. unfold_monad.
  destruct mediaRenderer; cbn; rewrite H; cbn; rewrite Hs; reflexivity.
Qed.

Lemma renderer_restored mediaRenderer u :
  set_mediaStreamRendered (mediaStreamRendered u)
    match mediaRenderer with
    | Some r => set_mediaStreamRendered (Some r) u
    | None => u
    end = u.
Proof. destruct mediaRenderer, u; reflexivity. Qed.

(** C4, amended: [acceptCall] when [callState] is not [OFFER_RECEIVED], and
    likewise when [operationInProgress] is not [OP_PROCESS_INVITE], always
    fails (with "Something went wront"), emits nothing, issues no command and
    changes no field other than the media renderer; called without a
    renderer it changes no field at all.  On every object reached from the
    constructor this is the only way [acceptCall] fails, so that it fails
    exactly when [callState] is not [OFFER_RECEIVED] or
    [operationInProgress] is not [OP_PROCESS_INVITE], and returns
    otherwise.  [rejectCall] and [endCall], whenever they fail, change no
    field and have no effect. *)
Theorem guard_violation_fails_without_call_state_change :
  forall (u : VoIPUser) (tr : Transport)
         (mediaRenderer : option IMediaStreamRenderer),
    (callState u <> OFFER_RECEIVED ->
     let r := acceptCall mediaRenderer u in
     completion r = Thrown "Something went wront" /\
     effects r = [] /\
     set_mediaStreamRendered (mediaStreamRendered u) (after r) = u /\
     (mediaRenderer = None -> after r = u)) /\
    (operationInProgress u <> Operation.OP_PROCESS_INVITE ->
     let r := acceptCall mediaRenderer u in
     completion r = Thrown "Something went wront" /\
     effects r = [] /\
     set_mediaStreamRendered (mediaStreamRendered u) (after r) = u /\
     (mediaRenderer = None -> after r = u)) /\
    (forall cfg mr inputs,
        u = run inputs (construct cfg mr) ->
        callState u = OFFER_RECEIVED ->
        operationInProgress u = Operation.OP_PROCESS_INVITE ->
        completion (acceptCall mediaRenderer u) = Returned tt) /\
    (forall cfg mr inputs msg,
        u = run inputs (construct cfg mr) ->
        let r := acceptCall mediaRenderer u in
        completion r = Thrown msg ->
        msg = "Something went wront" /\
        (callState u <> OFFER_RECEIVED \/
         operationInProgress u <> Operation.OP_PROCESS_INVITE) /\
        effects r = [] /\
        set_mediaStreamRendered (mediaStreamRendered u) (after r) = u /\
        (mediaRenderer = None -> after r = u)) /\
    (forall msg, completion (rejectCall u) = Thrown msg ->
                 after (rejectCall u) = u /\ effects (rejectCall u) = []) /\
    (forall msg, completion (endCall tr u) = Thrown msg ->
                 after (endCall tr u) = u /\ effects (endCall tr u) = []).
Proof.
  intros u tr mediaRenderer. split; [|split; [|split; [|split; [|split]]]].
  - intros Hcs r. subst r. apply CallStates_eqb_neq in Hcs.
    unfold callState in Hcs.
    rewrite acceptCall_guard_fails by (rewrite Hcs; reflexivity).
    cbn [completion after effects]. repeat split.
    + apply renderer_restored.
    + intros ->. reflexivity.
  - intros Hop r. subst r. apply Operation_eqb_neq in Hop.
    unfold operationInProgress in Hop.
    rewrite acceptCall_guard_fails by (rewrite Hop; apply andb_false_r).
    cbn [completion after effects]. repeat split.
    + apply renderer_restored.
    + intros ->. reflexivity.
  - intros cfg mr inputs Hu Hcs Hop.
    pose proof (reachable_consistent cfg mr inputs) as H. rewrite <- Hu in H.
    destruct H as [Hinv Hcall _ _ _]. unfold callState, operationInProgress in *.
    destruct (session u) as [s|] eqn:Hs.
    + destruct (Hinv s eq_refl) as [i ->].
      apply (acceptCall_guard_holds mediaRenderer u i); [|exact Hs].
      rewrite Hcs, Hop. reflexivity.
    + exfalso. apply Hcall; [rewrite Hcs|]; reflexivity.
  - intros cfg mr inputs msg Hu r Hthrow. subst r.
    pose proof (reachable_consistent cfg mr inputs) as H. rewrite <- Hu in H.
    destruct H as [Hinv Hcall _ _ _].
    destruct (CallStates_eqb (_callState u) OFFER_RECEIVED
              && Operation.eqb (_opInProgress u) Operation.OP_PROCESS_INVITE)
      eqn:G.
    + (* the guard holds: the tracked session is an invitation *)
      exfalso. pose proof G as G'. apply andb_prop in G'. destruct G' as [Ec _].
      apply CallStates_eqb_eq in Ec.
      destruct (session u) as [s|] eqn:Hs.
      * destruct (Hinv s eq_refl) as [i ->].
        rewrite (acceptCall_guard_holds mediaRenderer u i G Hs) in Hthrow.
        discriminate Hthrow.
      * apply Hcall; [rewrite Ec|]; reflexivity.
    + rewrite (acceptCall_guard_fails mediaRenderer u G) in Hthrow |- *.
      cbn [completion after effects] in Hthrow |- *.
      injection Hthrow as <-. repeat split.
      * unfold callState, operationInProgress.
        apply andb_false_iff in G. destruct G as [G|G]; [left|right]; intro E.
        -- apply CallStates_eqb_eq in E. congruence.
        -- apply Operation_eqb_eq in E. congruence.
      * apply renderer_restored.
      * intros ->. reflexivity.
  - intro msg. apply rejectCall_throws_unchanged.
  - intro msg. apply endCall_throws_unchanged.
Qed.

(** The amended C4 on a registered object with no offer pending, and on
    Alice's pending offer with a register in progress. *)
Lemma guard_violation_fails_without_call_state_change_witness :
  (let u := run Fixtures.registration (construct Fixtures.cfg None) in
   callState u <> OFFER_RECEIVED /\
   completion (acceptCall None u) = Thrown "Something went wront" /\
   after (acceptCall None u) = u /\
   after (rejectCall u) = u /\
   after (endCall Fixtures.bare u) = u) /\
  (let u := run (Fixtures.registration ++
                 [(Fixtures.bare, OnInvite Fixtures.alice);
                  (Fixtures.bare, Register)])
                (construct Fixtures.cfg None) in
   callState u = OFFER_RECEIVED /\
   operationInProgress u <> Operation.OP_PROCESS_INVITE /\
   completion (acceptCall None u) = Thrown "Something went wront" /\
   after (acceptCall None u) = u) /\
  (let u := run (Fixtures.registration ++
                 [(Fixtures.bare, OnInvite Fixtures.alice)])
                (construct Fixtures.cfg None) in
   completion (acceptCall None u) = Returned tt).
Proof.
  cbv zeta. split; [|split].
  - pose proof (guard_violation_fails_without_call_state_change
                  (run Fixtures.registration (construct Fixtures.cfg None))
                  Fixtures.bare None) as (Haccept & _ & _ & _ & Hreject & Hend).
    assert (Hcs : callState (run Fixtures.registration (construct Fixtures.cfg None))
                  <> OFFER_RECEIVED) by discriminate.
    destruct (Haccept Hcs) as (Hthrow & _ & _ & Hsame).
    split; [exact Hcs|]. split; [exact Hthrow|]. split; [exact (Hsame eq_refl)|].
    split.
    + apply (Hreject "Session does not exist."). reflexivity.
    + apply (Hend "Session does not exist."). reflexivity.
  - pose proof (guard_violation_fails_without_call_state_change
                  (run (Fixtures.registration ++
                        [(Fixtures.bare, OnInvite Fixtures.alice);
                         (Fixtures.bare, Register)])
                       (construct Fixtures.cfg None))
                  Fixtures.bare None) as (_ & Hop & _).
    assert (Ho : operationInProgress
                   (run (Fixtures.registration ++
                         [(Fixtures.bare, OnInvite Fixtures.alice);
                          (Fixtures.bare, Register)])
                        (construct Fixtures.cfg None))
                 <> Operation.OP_PROCESS_INVITE) by discriminate.
    destruct (Hop Ho) as (Hthrow & _ & _ & Hsame).
    split; [reflexivity|]. split; [exact Ho|]. split; [exact Hthrow|].
    exact (Hsame eq_refl).
  - pose proof (guard_violation_fails_without_call_state_change
                  (run (Fixtures.registration ++
                        [(Fixtures.bare, OnInvite Fixtures.alice)])
                       (construct Fixtures.cfg None))
                  Fixtures.bare None) as (_ & _ & Hret & _).
    apply (Hret Fixtures.cfg None
             (Fixtures.registration
                ++ [(Fixtures.bare, OnInvite Fixtures.alice)])%list);
      reflexivity.
Defined.

(** ** C5: an inbound invitation *)

(** C5: an invitation that arrives while [callState] is [REGISTERED] sets
    [operationInProgress] to [OP_PROCESS_INVITE], [callState] to
    [OFFER_RECEIVED], [userState] to [UAS], tracks the invitation as the
    session, fills the caller info from the invitation's remote identity
    and emits [incomingcall] then [stateChanged]; in any other state the
    invitation is rejected at once, no field changes and nothing is
    emitted. *)
Theorem invitation_handled_when_registered :
  forall (u : VoIPUser) (invitation : Invitation),
    let r := onInvite invitation u in
    let info :=
      {| callerId := match user (uri (remoteIdentity invitation)) with
                     | Some name => name
                     | None => ""
                     end;
         callerName := displayName (remoteIdentity invitation);
         callerHost := host (uri (remoteIdentity invitation)) |} in
    (callState u = REGISTERED ->
     completion r = Returned tt /\
     operationInProgress (after r) = Operation.OP_PROCESS_INVITE /\
     callState (after r) = OFFER_RECEIVED /\
     _userState (after r) = UserState.UAS /\
     session (after r) = Some (AnInvitation invitation) /\
     _callerInfo (after r) = Some info /\
     effects r = [Emit (incomingcall info); Emit stateChanged]) /\
    (callState u <> REGISTERED ->
     completion r = Returned tt /\
     after r = u /\
     effects r = [InvitationReject (ref invitation)]).
Proof.
  intros u invitation r info. subst r info.
  unfold onInvite, handleIncomingCall, setupSessionEventHandlers, emit, callState.
  unfold_monad. split; intro H.
  - rewrite H. cbn.
    destruct (user (uri (remoteIdentity invitation))) as [name|];
      cbn [or_empty]; [fold (or_empty (Some name)); rewrite or_empty_Some|];
      repeat split.
  - apply CallStates_eqb_neq in H. cbn. rewrite H. repeat split.
Qed.

(** C5 on Alice's invitation, on a registered and on a fresh object. *)
Lemma invitation_handled_when_registered_witness :
  (let u := run Fixtures.registration (construct Fixtures.cfg None) in
   callState u = REGISTERED /\
   callState (after (onInvite Fixtures.alice u)) = OFFER_RECEIVED /\
   _callerInfo (after (onInvite Fixtures.alice u)) =
     Some {| callerId := "alice"; callerName := "Alice";
             callerHost := "example.com" |}) /\
  (let u := construct Fixtures.cfg None in
   callState u <> REGISTERED /\
   after (onInvite Fixtures.alice u) = u /\
   effects (onInvite Fixtures.alice u) = [InvitationReject 1]).
Proof.
  cbv zeta. split.
  - destruct (proj1 (invitation_handled_when_registered
                       (run Fixtures.registration (construct Fixtures.cfg None))
                       Fixtures.alice) eq_refl)
      as (_ & _ & Hcs & _ & _ & Hinfo & _).
    split; [reflexivity|]. split; [exact Hcs|exact Hinfo].
  - assert (Hcs : callState (construct Fixtures.cfg None) <> REGISTERED)
      by discriminate.
    destruct (proj2 (invitation_handled_when_registered
                       (construct Fixtures.cfg None) Fixtures.alice) Hcs)
      as (_ & Hsame & Heff).
    split; [exact Hcs|]. split; [exact Hsame|exact Heff].
Defined.

(** ** C6: ending a call *)

(** [endCall] on any object whose tracked session is an invitation. *)
Lemma endCall_dispatch tr u i :
  session u = Some (AnInvitation i) ->
  callState u = ANSWER_SENT \/ callState u = IN_CALL ->
  endCall tr u =
    {| completion := Returned tt; after := u;
       effects :=
         match sessionState tr (ref i) with
         | SessionState.Initial | SessionState.Establishing =>
             [InvitationReject (ref i)]
         | SessionState.Established => [SessionBye (ref i)]
         | SessionState.Terminating | SessionState.Terminated => []
         end |}.
Proof.
  intros Hs Hcs. unfold endCall, callState in *. unfold_monad. cbn. rewrite Hs. cbn.
  destruct Hcs as [-> | ->]; cbn; destruct (sessionState tr (ref i)); reflexivity.
Qed.

(** C6: on every object reached from the constructor, [endCall] with a
    session tracked and [callState] in [ANSWER_SENT], [IN_CALL] returns,
    changes no field and, by the sub-state of the session, issues reject
    ([Initial], [Establishing]), bye ([Established]) or nothing
    ([Terminating], [Terminated]); with no session, or with [callState]
    outside the two, it throws, changes no field and issues nothing. *)
Theorem endCall_dispatches_on_session_state :
  forall cfg mediaRenderer (inputs : list (Transport * Input)) (tr : Transport),
    let u := run inputs (construct cfg mediaRenderer) in
    (forall s,
        session u = Some s ->
        callState u = ANSWER_SENT \/ callState u = IN_CALL ->
        endCall tr u =
          {| completion := Returned tt; after := u;
             effects :=
               match sessionState tr (session_ref s) with
               | SessionState.Initial | SessionState.Establishing =>
                   [InvitationReject (session_ref s)]
               | SessionState.Established => [SessionBye (session_ref s)]
               | SessionState.Terminating | SessionState.Terminated => []
               end |}) /\
    (session u = None \/
     In (callState u) [IDLE; SERVER_CONNECTED; REGISTERED; UNREGISTERED;
                       OFFER_RECEIVED] ->
     exists msg,
       endCall tr u = {| completion := Thrown msg; after := u; effects := [] |}).
Proof.
  intros cfg mediaRenderer inputs tr u.
  pose proof (reachable_consistent cfg mediaRenderer inputs) as H.
  fold u in H. destruct H as [Hinv _ _ _ _]. split.
  - intros s Hs Hcs. destruct (Hinv s Hs) as [i ->].
    apply endCall_dispatch; assumption.
  - intros [Hs|Hcs]; unfold endCall, callState in *; unfold_monad; cbn.
    + rewrite Hs. eexists. reflexivity.
    + destruct (session u); [|eexists; reflexivity].
      cbn in Hcs. destruct Hcs as [E|[E|[E|[E|[E|[]]]]]]; rewrite <- E; cbn;
        eexists; reflexivity.
Qed.

(** C6 on the established call with Alice, and on a registered object. *)
Lemma endCall_dispatches_on_session_state_witness :
  (let u := run Fixtures.call (construct Fixtures.cfg None) in
   callState u = IN_CALL /\
   endCall Fixtures.established u =
     {| completion := Returned tt; after := u; effects := [SessionBye 1] |}) /\
  (let u := run Fixtures.registration (construct Fixtures.cfg None) in
   callState u = REGISTERED /\
   exists msg,
     endCall Fixtures.bare u =
       {| completion := Thrown msg; after := u; effects := [] |}).
Proof.
  cbv zeta. split.
  - split; [reflexivity|].
    apply (proj1 (endCall_dispatches_on_session_state Fixtures.cfg None
                    Fixtures.call Fixtures.established)
             (AnInvitation Fixtures.alice)).
    + reflexivity.
    + right. reflexivity.
  - split; [reflexivity|].
    apply (proj2 (endCall_dispatches_on_session_state Fixtures.cfg None
                    Fixtures.registration Fixtures.bare)).
    left. reflexivity.
Defined.

(** ** C7: callbacks of a superseded session *)

(** C7: a listener whose captured session is not the session the object
    tracks (another one is tracked, or none) returns at once: no field
    changes, nothing is emitted, whatever state the emitter delivers.
    Hence, on every object reached from the constructor, a [stateChange] of
    any emitter other than the tracked session's changes no field and has no
    effect. *)
Theorem stale_callback_discarded :
  forall (tr : Transport) (u : VoIPUser) (s : Session) (st : SessionState),
    (superseded s u = true ->
     stateChangeListener tr s st u =
       {| completion := Returned tt; after := u; effects := [] |}) /\
    (forall cfg mediaRenderer inputs,
        u = run inputs (construct cfg mediaRenderer) ->
        superseded s u = true ->
        let r := step tr (StateChange (session_ref s) st) u in
        completion r = Returned tt /\ after r = u /\ effects r = []).
Proof.
  intros tr u s st. split.
  - apply stateChangeListener_superseded.
  - intros cfg mediaRenderer inputs Hu Hsup r. subst r.
    pose proof (reachable_consistent cfg mediaRenderer inputs) as H.
    rewrite <- Hu in H. destruct H as [_ _ _ Hown _].
    cbn [step].
    rewrite (bind_returned _ _ u (listeners u) u [] (Returned tt) u []
               eq_refl).
    + repeat split.
    + apply deliver_stale; [exact Hown|].
      intros c Hc E. unfold superseded in Hsup. rewrite Hc in Hsup.
      apply negb_true_iff in Hsup. unfold same_session in Hsup.
      apply Nat.eqb_neq in Hsup. apply Hsup, E.
Qed.

(** C7 on the Fixtures.replaced session: the termination of Alice's session changes
    nothing while Carol's is tracked. *)
Lemma stale_callback_discarded_witness :
  let u := run Fixtures.replaced (construct Fixtures.cfg None) in
  session u = Some (AnInvitation Fixtures.carol) /\
  In (1, AnInvitation Fixtures.alice) (listeners u) /\
  superseded (AnInvitation Fixtures.alice) u = true /\
  after (step Fixtures.established (StateChange 1 SessionState.Terminated) u) = u /\
  effects (step Fixtures.established (StateChange 1 SessionState.Terminated) u) = [].
Proof.
  cbv zeta.
  destruct (proj2 (stale_callback_discarded Fixtures.established
                     (run Fixtures.replaced (construct Fixtures.cfg None))
                     (AnInvitation Fixtures.alice) SessionState.Terminated)
              Fixtures.cfg None Fixtures.replaced eq_refl eq_refl)
    as (_ & Hsame & Heff).
  split; [reflexivity|]. split; [left; reflexivity|]. split; [reflexivity|].
  split; [exact Hsame|exact Heff].
Defined.

(** ** C8: attaching the remote media *)

(** C8, as stated, fails: with Alice's session tracked and no description
    handler on it, [setupRemoteMedia] returns instead of raising, and
    attaches nothing. *)
Lemma setupRemoteMedia_returns_without_handler :
  let u := run (Fixtures.registration ++ [(Fixtures.bare, OnInvite Fixtures.alice)])
               (construct Fixtures.cfg None) in
  session u = Some (AnInvitation Fixtures.alice) /\
  sessionDescriptionHandler Fixtures.bare 1 = None /\
  setupRemoteMedia Fixtures.bare u =
    {| completion := Returned tt; after := u; effects := [] |}.
Proof. vm_compute. repeat split. Qed.

(** C8, amended: [setupRemoteMedia] raises, changing no field, when no
    session is tracked ("Session does not exist."), when the session's
    description handler is not the web handler, and when the handler has no
    remote stream ("Remote media stream undefiend."); when the session has
    no description handler it returns, changing no field and attaching
    nothing. *)
Theorem setupRemoteMedia_failures :
  forall (tr : Transport) (u : VoIPUser),
    (session u = None ->
     setupRemoteMedia tr u =
       {| completion := Thrown "Session does not exist.";
          after := u; effects := [] |}) /\
    (forall s,
        session u = Some s ->
        match sessionDescriptionHandler tr (session_ref s) with
        | None =>
            setupRemoteMedia tr u =
              {| completion := Returned tt; after := u; effects := [] |}
        | Some OtherSessionDescriptionHandler =>
            setupRemoteMedia tr u =
              {| completion :=
                   Thrown "Session description handler not instance of web SessionDescriptionHandler";
                 after := u; effects := [] |}
        | Some (WebSessionDescriptionHandler None) =>
            setupRemoteMedia tr u =
              {| completion := Thrown "Remote media stream undefiend.";
                 after := u; effects := [] |}
        | Some (WebSessionDescriptionHandler (Some remote)) =>
            completion (setupRemoteMedia tr u) = Returned tt /\
            remoteStream (after (setupRemoteMedia tr u)) =
              Some {| mediaStream := remote |}
        end).
Proof.
  intros tr u. unfold setupRemoteMedia. unfold_monad. cbn. split.
  - intros ->. reflexivity.
  - intros s ->.
    destruct (sessionDescriptionHandler tr (session_ref s)) as [[[remote|]|]|]; cbn;
      try reflexivity.
    destruct (mediaStreamRendered u) as [[[el|]]|]; cbn; split; reflexivity.
Qed.

(** The amended C8 on a fresh object and on Alice's established call. *)
Lemma setupRemoteMedia_failures_witness :
  completion (setupRemoteMedia Fixtures.bare (construct Fixtures.cfg None)) =
    Thrown "Session does not exist." /\
  remoteStream
    (after (setupRemoteMedia Fixtures.established
              (run Fixtures.call (construct Fixtures.cfg None)))) =
    Some {| mediaStream := 5 |}.
Proof.
  split.
  - rewrite (proj1 (setupRemoteMedia_failures Fixtures.bare
                      (construct Fixtures.cfg None)) eq_refl).
    reflexivity.
  - apply (proj2 (setupRemoteMedia_failures Fixtures.established
                    (run Fixtures.call (construct Fixtures.cfg None)))
             (AnInvitation Fixtures.alice) eq_refl).
Defined.

(** ** C9: register and unregister before the connect acknowledgment *)






(** ** C10: a disconnect without an error *)

(** C10: [onDisconnect] without an error value returns, emits nothing and
    leaves the object as it is: [callState], [isReady],
    [operationInProgress] and the session are what they were. *)
Theorem clean_disconnect_is_invisible :
  forall (tr : Transport) (u : VoIPUser),
    let r := step tr (OnDisconnect None) u in
    r = onDisconnect None u /\
    completion r = Returned tt /\
    effects r = [] /\
    after r = u /\
    callState (after r) = callState u /\
    isReady_ (after r) = isReady_ u /\
    operationInProgress (after r) = operationInProgress u /\
    session (after r) = session u.
Proof. intros tr u. cbn. repeat split. Qed.

(** ** Beyond the claims: the rest of the class *)

(** *** Readiness follows the connection *)

Lemma stateChangeListener_state tr s st u :
  state (after (stateChangeListener tr s st u)) = state u.
Proof. unfold_methods. unfold_monad. branch; reflexivity. Qed.

Lemma deliver_state tr r st ls :
  forall u, state (after (deliver tr r st ls u)) = state u.
Proof.
  induction ls as [|[e c] ls IH]; intro u; [reflexivity|].
  cbn [deliver]. apply (after_bind (fun u' => state u' = state u)).
  - unfold when. destruct (Nat.eqb e r); [|reflexivity].
    apply stateChangeListener_state.
  - intros _ u1 H1. rewrite IH. exact H1.
Qed.

Lemma step_ready tr i u :
  isReady_ (after (step tr i u)) = ready_after (isReady_ u) i.
Proof.
  unfold isReady_. destruct i;
    try solve [unfold_methods; unfold_monad; branch; reflexivity].
  cbn [step ready_after].
  apply (after_bind (fun u' => isReady (state u') = isReady (state u))).
  - reflexivity.
  - intros ls u1 H1. rewrite deliver_state. exact H1.
Qed.

(** [isReady()] after any sequence of inputs tells whether the latest of the
    connect acknowledgments and the disconnects with an error was a connect
    acknowledgment; on a fresh object none of them has happened and it is
    false.  No command and no other callback changes it. *)
Theorem isReady_follows_connection :
  forall (inputs : list (Transport * Input)) (u : VoIPUser),
    isReady_ (run inputs u) = ready_after_all inputs (isReady_ u) /\
    (forall cfg mediaRenderer,
        isReady_ (run inputs (construct cfg mediaRenderer)) =
        ready_after_all inputs false).
Proof.
  assert (H : forall inputs u,
             isReady_ (run inputs u) = ready_after_all inputs (isReady_ u)).
  { induction inputs as [|[tr i] rest IH]; intro u; [reflexivity|].
    cbn [run]. rewrite IH, step_ready. reflexivity. }
  intros inputs u. split; [apply H|].
  intros cfg mediaRenderer. apply H.
Qed.

(** *** The configuration, the agent and the role *)

Lemma construct_settled cfg mediaRenderer :
  settled cfg (construct cfg mediaRenderer).
Proof.
  constructor; cbn; try discriminate; try contradiction; try reflexivity.
  split; [contradiction|discriminate].
Qed.

Ltac close_settled :=
  match goal with
  | H : settled _ _ |- settled _ _ =>
      destruct H as [Hcfg Hagent Hreg Hhas Huas];
      constructor; cbn in *; intros; try split; intros;
      repeat match goal with
             | E : Some _ = Some _ |- _ => injection E as E; subst
             end;
      try discriminate; try congruence; try tauto; eauto
  end.

Lemma stateChangeListener_settled cfg tr s st u :
  settled cfg u -> settled cfg (after (stateChangeListener tr s st u)).
Proof.
  intro H. unfold_methods. unfold_monad. destruct u; branch;
    solve [close_settled].
Qed.

Lemma deliver_settled cfg tr r st ls :
  forall u, settled cfg u -> settled cfg (after (deliver tr r st ls u)).
Proof.
  induction ls as [|[e c] ls IH]; intros u H; [exact H|].
  cbn [deliver]. apply after_bind.
  - unfold when. destruct (Nat.eqb e r); [|exact H].
    apply stateChangeListener_settled, H.
  - intros _ u1 H1. apply IH, H1.
Qed.

Lemma step_settled cfg tr i u :
  settled cfg u -> settled cfg (after (step tr i u)).
Proof.
  intro H. destruct i;
    try solve [unfold_methods; unfold_monad; destruct u; branch; close_settled].
  cbn [step]. apply after_bind; [exact H|].
  intros ls u1 H1. apply deliver_settled, H1.
Qed.

Lemma run_settled cfg inputs :
  forall u, settled cfg u -> settled cfg (run inputs u).
Proof.
  induction inputs as [|[tr i] rest IH]; intros u H; cbn [run].
  - exact H.
  - apply IH, step_settled, H.
Qed.

(** On every object reached from the constructor, the user state is [UAS]
    exactly while a session is tracked; in particular it is [UAS] in the
    call states [OFFER_RECEIVED], [ANSWER_SENT] and [IN_CALL]. *)
Theorem userState_uas_iff_session_tracked :
  forall cfg mediaRenderer (inputs : list (Transport * Input)),
    let u := run inputs (construct cfg mediaRenderer) in
    (session u <> None <-> userState u = UserState.UAS) /\
    (in_a_call (callState u) = true -> userState u = UserState.UAS).
Proof.
  intros cfg mediaRenderer inputs u.
  pose proof (run_settled cfg inputs _ (construct_settled cfg mediaRenderer)) as S.
  pose proof (reachable_consistent cfg mediaRenderer inputs) as C.
  fold u in S, C. destruct S as [_ _ _ _ Huas]. destruct C as [_ Hcall _ _ _].
  split; [exact Huas|]. intro H. apply Huas, Hcall, H.
Qed.

(** The user state in Alice's established call and after it. *)
Lemma userState_uas_iff_session_tracked_witness :
  userState (run Fixtures.call (construct Fixtures.cfg None)) = UserState.UAS /\
  session (run (Fixtures.call ++
                [(Fixtures.established, StateChange 1 SessionState.Terminated)])
               (construct Fixtures.cfg None)) = None.
Proof.
  split.
  - apply (proj2 (userState_uas_iff_session_tracked Fixtures.cfg None Fixtures.call)).
    reflexivity.
  - reflexivity.
Defined.



(** *** The registerer stays *)

Lemma step_keeps_registerer tr i u :
  registerer u <> None -> registerer (after (step tr i u)) <> None.
Proof.
  intro H. destruct i;
    try (rewrite step_registerer by discriminate; exact H).
  unfold_methods. unfold_monad. branch; cbn; congruence.
Qed.

(** Once a registerer exists no input drops it: whatever the object
    receives afterwards, [register] returns and issues exactly one register
    command, [unregister] exactly one unregister command (with [all]),
    and neither emits an event. *)
Theorem register_issues_command_once_connected :
  forall (inputs : list (Transport * Input)) (u : VoIPUser),
    registerer u <> None ->
    let u' := run inputs u in
    registerer u' <> None /\
    register u' =
      {| completion := Returned tt;
         after := set_opInProgress Operation.OP_REGISTER u';
         effects := [RegistererRegister] |} /\
    unregister u' =
      {| completion := Returned tt;
         after := set_opInProgress Operation.OP_UNREGISTER u';
         effects := [RegistererUnregister true] |}.
Proof.
  intros inputs u H u'.
  assert (Hr : registerer u' <> None).
  { subst u'. revert u H.
    induction inputs as [|[tr i] rest IH]; intros u H; [exact H|].
    cbn [run]. apply IH, step_keeps_registerer, H. }
  split; [exact Hr|].
  unfold register, unregister. unfold_monad. cbn.
  destruct (registerer u'); [split; reflexivity|].
  exfalso. apply Hr. reflexivity.
Qed.

(** Registering again while Alice's offer is pending. *)
Lemma register_issues_command_once_connected_witness :
  effects
    (register
       (run [(Fixtures.bare, OnInvite Fixtures.alice)]
            (run Fixtures.registration (construct Fixtures.cfg None)))) =
    [RegistererRegister].
Proof.
  assert (H : registerer (run Fixtures.registration (construct Fixtures.cfg None))
              <> None) by (vm_compute; discriminate).
  destruct (register_issues_command_once_connected
              [(Fixtures.bare, OnInvite Fixtures.alice)] _ H) as (_ & Hreg & _).
  rewrite Hreg. reflexivity.
Defined.

(** *** The session reaches [Established] *)

Lemma after_bind_ret {A B} (a : A) (f : A -> M B) u :
  after (bind (ret a) f u) = after (f a u).
Proof. unfold bind, ret. destruct (f a u). reflexivity. Qed.

Lemma same_session_refl s : same_session s s = true.
Proof. apply Nat.eqb_refl. Qed.

(** The [Established] branch of the listener, by what the transport holds
    for the session: [callestablished] goes out exactly when
    [setupRemoteMedia] does not throw. *)
Lemma stateChangeListener_established tr c u s :
  session u = Some s -> same_session s c = true ->
  stateChangeListener tr c SessionState.Established u =
    match sessionDescriptionHandler tr (session_ref s) with
    | None =>
        {| completion := Returned tt; after := picked_up u;
           effects := [Emit callestablished; Emit stateChanged] |}
    | Some OtherSessionDescriptionHandler =>
        {| completion :=
             Thrown "Session description handler not instance of web SessionDescriptionHandler";
           after := picked_up u; effects := [] |}
    | Some (WebSessionDescriptionHandler None) =>
        {| completion := Thrown "Remote media stream undefiend.";
           after := picked_up u; effects := [] |}
    | Some (WebSessionDescriptionHandler (Some remote)) =>
        {| completion := Returned tt;
           after := set_remoteStream (Some {| mediaStream := remote |})
                      (picked_up u);
           effects := playback u ++ [Emit callestablished; Emit stateChanged] |}
    end.
Proof.
  intros Hs Hc. unfold stateChangeListener, setupRemoteMedia, emit, picked_up, playback.
  unfold_monad. cbn. rewrite Hs. cbn. rewrite Hc. cbn. rewrite Hs. cbn.
  destruct (sessionDescriptionHandler tr (session_ref s)) as [[[remote|]|]|]; cbn;
    try reflexivity.
  destruct (mediaStreamRendered u) as [[[el|]]|]; reflexivity.
Qed.

Lemma stateChangeListener_established_same tr c u s :
  session u = Some s -> same_session s c = true ->
  same_but_stream (after (stateChangeListener tr c SessionState.Established u))
                  (picked_up u).
Proof.
  intros Hs Hc. rewrite (stateChangeListener_established tr c u s Hs Hc).
  destruct (sessionDescriptionHandler tr (session_ref s)) as [[[remote|]|]|];
    reflexivity.
Qed.

Lemma same_but_stream_session a b :
  same_but_stream a b -> session a = session b.
Proof. intro H. exact (f_equal session H). Qed.

Lemma same_but_stream_picked_up a b :
  same_but_stream a (picked_up b) -> same_but_stream (picked_up a) (picked_up b).
Proof.
  unfold same_but_stream. intro H. destruct a, b. cbn in *.
  injection H as -> -> -> -> -> -> -> -> -> -> ->. reflexivity.
Qed.

(** Once one listener has taken the [Established] branch, the others of the
    same emitter change at most the remote stream. *)
Lemma deliver_keeps_picked_up tr s u ls :
  session u = Some s ->
  (forall e c, In (e, c) ls -> e = session_ref c) ->
  forall u', same_but_stream u' (picked_up u) ->
             same_but_stream
               (after (deliver tr (session_ref s) SessionState.Established ls u'))
               (picked_up u).
Proof.
  intros Hs Hown. induction ls as [|[e c] ls IH]; intros u' H'; [exact H'|].
  cbn [deliver].
  apply (after_bind (fun x => same_but_stream x (picked_up u))).
  - unfold when. destruct (Nat.eqb_spec e (session_ref s)) as [E|E]; [|exact H'].
    assert (Hs' : session u' = Some s).
    { rewrite (same_but_stream_session _ _ H'). exact Hs. }
    assert (Hc : same_session s c = true).
    { unfold same_session. apply Nat.eqb_eq. rewrite <- E.
      apply Hown. left. reflexivity. }
    pose proof (stateChangeListener_established_same tr c u' s Hs' Hc) as H1.
    unfold same_but_stream in *. rewrite H1.
    apply same_but_stream_picked_up, H'.
  - intros _ u1 H1. apply IH; [|exact H1].
    intros e' c' Hin. apply Hown. right. exact Hin.
Qed.

Lemma deliver_established tr s u ls :
  session u = Some s ->
  (forall e c, In (e, c) ls -> e = session_ref c) ->
  (exists c, In (session_ref s, c) ls) ->
  same_but_stream
    (after (deliver tr (session_ref s) SessionState.Established ls u))
    (picked_up u).
Proof.
  intros Hs Hown Hin. induction ls as [|[e c] ls IH]; [destruct Hin as [? []]|].
  cbn [deliver]. unfold when.
  destruct (Nat.eqb_spec e (session_ref s)) as [E|E].
  - assert (Hc : same_session s c = true).
    { unfold same_session. apply Nat.eqb_eq. rewrite <- E.
      apply Hown. left. reflexivity. }
    apply (after_bind (fun x => same_but_stream x (picked_up u))).
    + apply (stateChangeListener_established_same tr c u s Hs Hc).
    + intros _ u1 H1. apply deliver_keeps_picked_up; [exact Hs| |exact H1].
      intros e' c' H. apply Hown. right. exact H.
  - rewrite after_bind_ret. apply IH.
    + intros e' c' H. apply Hown. right. exact H.
    + destruct Hin as [c' [H|H]]; [|exists c'; exact H].
      exfalso. apply E. congruence.
Qed.

Lemma step_StateChange tr r st u :
  step tr (StateChange r st) u = deliver tr r st (listeners u) u.
Proof.
  cbn [step]. unfold bind, gets.
  destruct (deliver tr r st (listeners u) u). reflexivity.
Qed.

(** The [Established] callback of the tracked session, by what the transport
    holds for it.  The operation in progress is cleared and [callState] is
    [IN_CALL] in every case; [callestablished] and [stateChanged] are
    emitted exactly when [setupRemoteMedia] does not throw, after the
    playback of the remote stream, which happens only when the renderer has
    an element; with no description handler the events go out with no remote
    stream wrapped. *)
Theorem established_callback_by_media :
  forall (tr : Transport) (u : VoIPUser) (s : Session),
    session u = Some s ->
    stateChangeListener tr s SessionState.Established u =
      match sessionDescriptionHandler tr (session_ref s) with
      | None =>
          {| completion := Returned tt; after := picked_up u;
             effects := [Emit callestablished; Emit stateChanged] |}
      | Some OtherSessionDescriptionHandler =>
          {| completion :=
               Thrown "Session description handler not instance of web SessionDescriptionHandler";
             after := picked_up u; effects := [] |}
      | Some (WebSessionDescriptionHandler None) =>
          {| completion := Thrown "Remote media stream undefiend.";
             after := picked_up u; effects := [] |}
      | Some (WebSessionDescriptionHandler (Some remote)) =>
          {| completion := Returned tt;
             after := set_remoteStream (Some {| mediaStream := remote |})
                        (picked_up u);
             effects := playback u ++ [Emit callestablished; Emit stateChanged] |}
      end.
Proof.
  intros tr u s Hs.
  apply (stateChangeListener_established tr s u s Hs (same_session_refl s)).
Qed.

(** Alice's call is established with a renderer that has an element: the
    stream is played, then the two events go out. *)
Lemma established_callback_by_media_witness :
  effects
    (stateChangeListener Fixtures.established (AnInvitation Fixtures.alice)
       SessionState.Established
       (run (Fixtures.registration ++
             [(Fixtures.bare, OnInvite Fixtures.alice);
              (Fixtures.bare, AcceptCall (Some Fixtures.renderer))])
            (construct Fixtures.cfg None))) =
    [StreamInit 7; StreamOnTrackAdded; StreamOnTrackRemoved; StreamPlay;
     Emit callestablished; Emit stateChanged].
Proof.
  rewrite (established_callback_by_media Fixtures.established
             (run (Fixtures.registration ++
                   [(Fixtures.bare, OnInvite Fixtures.alice);
                    (Fixtures.bare, AcceptCall (Some Fixtures.renderer))])
                  (construct Fixtures.cfg None))
             (AnInvitation Fixtures.alice) eq_refl).
  reflexivity.
Defined.

(** On every object reached from the constructor, when the emitter of the
    tracked session delivers [Established], whatever the call state and
    whatever becomes of the media, [callState] is [IN_CALL],
    [operationInProgress] is [OP_NONE], the session is still tracked and no
    field other than these two and the remote stream has changed. *)
Theorem established_reaches_in_call :
  forall cfg mediaRenderer (inputs : list (Transport * Input))
         (tr : Transport) (s : Session),
    let u := run inputs (construct cfg mediaRenderer) in
    session u = Some s ->
    let u' := after (step tr (StateChange (session_ref s) SessionState.Established) u) in
    callState u' = IN_CALL /\
    operationInProgress u' = Operation.OP_NONE /\
    session u' = Some s /\
    same_but_stream u' (picked_up u).
Proof.
  intros cfg mediaRenderer inputs tr s u Hs u'.
  pose proof (reachable_consistent cfg mediaRenderer inputs) as C.
  fold u in C. destruct C as [_ _ _ Hown Hlis].
  assert (H : same_but_stream u' (picked_up u)).
  { subst u'. rewrite step_StateChange.
    apply deliver_established; [exact Hs|exact Hown|].
    exists s. apply Hlis, Hs. }
  repeat split.
  - exact (f_equal _callState H).
  - exact (f_equal _opInProgress H).
  - rewrite (same_but_stream_session _ _ H). exact Hs.
  - exact H.
Qed.

(** Alice's offer, not yet picked up, is established by the transport. *)
Lemma established_reaches_in_call_witness :
  callState
    (after (step Fixtures.established (StateChange 1 SessionState.Established)
              (run (Fixtures.registration ++
                    [(Fixtures.bare, OnInvite Fixtures.alice)])
                   (construct Fixtures.cfg None)))) = IN_CALL.
Proof.
  apply (established_reaches_in_call Fixtures.cfg None
           (Fixtures.registration ++ [(Fixtures.bare, OnInvite Fixtures.alice)])
           Fixtures.established (AnInvitation Fixtures.alice)).
  reflexivity.
Defined.

(** *** Picking up and rejecting an offer *)

Lemma onInvite_registered invitation u :
  callState u = REGISTERED ->
  onInvite invitation u =
    {| completion := Returned tt; after := offered invitation u;
       effects := [Emit (incomingcall (caller_of invitation)); Emit stateChanged] |}.
Proof.
  unfold onInvite, handleIncomingCall, setupSessionEventHandlers, emit, callState,
    offered, caller_of.
  unfold_monad. intro H. rewrite H. reflexivity.
Qed.

Lemma acceptCall_succeeds mediaRenderer u i :
  _callState u = OFFER_RECEIVED ->
  _opInProgress u = Operation.OP_PROCESS_INVITE ->
  session u = Some (AnInvitation i) ->
  acceptCall mediaRenderer u =
    {| completion := Returned tt;
       after := set_callState ANSWER_SENT (rendered mediaRenderer u);
       effects := [InvitationAccept (ref i) true
                     (truthy (configEnableVideo (config u)))] |}.
Proof.
  intros Hc Ho Hs. unfold acceptCall, rendered. unfold_monad.
  destruct mediaRenderer; cbn; rewrite Hc, Ho; cbn; rewrite Hs; reflexivity.
Qed.

Lemma offer_is_invitation u :
  consistent u -> _callState u = OFFER_RECEIVED ->
  exists i, session u = Some (AnInvitation i).
Proof.
  intros [Hinv Hcall _ _ _] E.
  destruct (session u) as [s|] eqn:Hs.
  - destruct (Hinv s eq_refl) as [i ->]. exists i. reflexivity.
  - exfalso. apply Hcall; [rewrite E|]; reflexivity.
Qed.

(** On every object reached from the constructor with an offer pending
    ([callState] is [OFFER_RECEIVED] and [operationInProgress] is
    [OP_PROCESS_INVITE]), [acceptCall] returns, moves [callState] to
    [ANSWER_SENT], changes no other field but the renderer it was passed,
    and issues one accept on the tracked invitation with audio on and video
    as the configuration enables it; a second [acceptCall] right after
    throws and issues nothing. *)
Theorem acceptCall_answers_once :
  forall cfg mediaRenderer0 (inputs : list (Transport * Input))
         (mediaRenderer mediaRenderer' : option IMediaStreamRenderer),
    let u := run inputs (construct cfg mediaRenderer0) in
    callState u = OFFER_RECEIVED ->
    operationInProgress u = Operation.OP_PROCESS_INVITE ->
    exists i,
      session u = Some (AnInvitation i) /\
      acceptCall mediaRenderer u =
        {| completion := Returned tt;
           after := set_callState ANSWER_SENT (rendered mediaRenderer u);
           effects := [InvitationAccept (ref i) true
                         (truthy (configEnableVideo cfg))] |} /\
      acceptCall mediaRenderer' (after (acceptCall mediaRenderer u)) =
        {| completion := Thrown "Something went wront";
           after := rendered mediaRenderer' (after (acceptCall mediaRenderer u));
           effects := [] |}.
Proof.
  intros cfg mediaRenderer0 inputs mediaRenderer mediaRenderer' u Hc Ho.
  pose proof (reachable_consistent cfg mediaRenderer0 inputs) as C.
  pose proof (run_settled cfg inputs _ (construct_settled cfg mediaRenderer0)) as S.
  fold u in C, S. destruct (offer_is_invitation u C Hc) as [i Hs].
  exists i. split; [exact Hs|].
  rewrite (acceptCall_succeeds mediaRenderer u i Hc Ho Hs).
  rewrite (config_kept _ _ S). split; [reflexivity|].
  cbn [after]. apply acceptCall_guard_fails.
  destruct mediaRenderer; reflexivity.
Qed.

(** Picking up Alice's offer twice. *)
Lemma acceptCall_answers_once_witness :
  let u := run (Fixtures.registration ++ [(Fixtures.bare, OnInvite Fixtures.alice)])
               (construct Fixtures.cfg None) in
  effects (acceptCall None u) = [InvitationAccept 1 true false] /\
  completion (acceptCall None (after (acceptCall None u))) =
    Thrown "Something went wront".
Proof.
  cbv zeta.
  destruct (acceptCall_answers_once Fixtures.cfg None
              (Fixtures.registration ++ [(Fixtures.bare, OnInvite Fixtures.alice)])
              None None eq_refl eq_refl) as (i & Hs & Hfirst & Hsecond).
  rewrite Hsecond, Hfirst. injection Hs as <-. split; reflexivity.
Defined.

(** On every object reached from the constructor, [rejectCall] goes through
    exactly when [callState] is [OFFER_RECEIVED]: the one command it then
    sends to the transport is a reject on the tracked invitation, and with
    the [Terminated] (or [Terminating]) that the session's emitter delivers
    for it the object is back to [REGISTERED] with no session, no operation
    in progress and user state [IDLE].  Otherwise it throws, "Session does
    not exist." when no session is tracked and the incorrect call state
    otherwise, having changed no field and sent nothing. *)
Theorem rejectCall_only_rejects_pending_offer :
  forall cfg mediaRenderer (inputs : list (Transport * Input)),
    let u := run inputs (construct cfg mediaRenderer) in
    (callState u = OFFER_RECEIVED ->
     exists i,
       session u = Some (AnInvitation i) /\
       completion (rejectCall u) = Returned tt /\
       filter is_transport_command (effects (rejectCall u)) =
         [InvitationReject (ref i)] /\
       (forall tr tr' st,
           terminal st = true ->
           run [(tr, RejectCall); (tr', StateChange (ref i) st)] u = hung_up u)) /\
    (callState u <> OFFER_RECEIVED ->
     rejectCall u =
       {| completion :=
            Thrown (match session u with
                    | None => "Session does not exist."
                    | Some _ =>
                        "Incorrect call State = " ++ CallStates_text (callState u)
                    end);
          after := u; effects := [] |}).
Proof.
  intros cfg mediaRenderer inputs u.
  pose proof (reachable_consistent cfg mediaRenderer inputs) as C. fold u in C.
  unfold callState. split; intro H.
  - destruct (offer_is_invitation u C H) as [i Hs]. exists i.
    split; [exact Hs|].
    assert (Hr : rejectCall u =
                 {| completion := Returned tt; after := u;
                    effects := [InvitationReject (ref i)] |}).
    { unfold rejectCall. unfold_monad. cbn. rewrite Hs. cbn. rewrite H. reflexivity. }
    rewrite Hr. split; [reflexivity|]. split; [reflexivity|].
    intros tr tr' st Hst. cbn [run step]. rewrite Hr. cbn [after].
    change (ref i) with (session_ref (AnInvitation i)).
    change (after (step tr' (StateChange (session_ref (AnInvitation i)) st) u)
            = hung_up u).
    rewrite step_StateChange.
    rewrite (deliver_terminal tr' st (listeners u) u (AnInvitation i) Hs
               (listener_on_own_emitter _ C)
               (ex_intro (fun c => In (session_ref (AnInvitation i), c) (listeners u))
                         (AnInvitation i) (tracked_is_listened _ C _ Hs)) Hst).
    reflexivity.
  - apply CallStates_eqb_neq in H.
    unfold rejectCall. unfold_monad. cbn.
    destruct (session u); cbn; [rewrite H|]; reflexivity.
Qed.

(** Rejecting Alice's offer, and rejecting when registered with no offer. *)
Lemma rejectCall_only_rejects_pending_offer_witness :
  callState
    (run [(Fixtures.bare, RejectCall);
          (Fixtures.bare, StateChange 1 SessionState.Terminated)]
       (run (Fixtures.registration ++ [(Fixtures.bare, OnInvite Fixtures.alice)])
            (construct Fixtures.cfg None))) = REGISTERED /\
  completion (rejectCall (run Fixtures.registration (construct Fixtures.cfg None))) =
    Thrown "Session does not exist.".
Proof.
  split.
  - destruct (proj1 (rejectCall_only_rejects_pending_offer Fixtures.cfg None
                       (Fixtures.registration ++
                        [(Fixtures.bare, OnInvite Fixtures.alice)])) eq_refl)
      as (i & Hs & _ & _ & Hrun).
    injection Hs as <-.
    change 1 with (ref Fixtures.alice).
    rewrite (Hrun Fixtures.bare Fixtures.bare SessionState.Terminated eq_refl).
    reflexivity.
  - rewrite (proj2 (rejectCall_only_rejects_pending_offer Fixtures.cfg None
                      Fixtures.registration)) by discriminate.
    reflexivity.
Defined.

(** *** A whole call *)

(** From [REGISTERED], on any object reached from the constructor: an
    invitation, a pick-up and the session's [Established] give [IN_CALL]
    with the [callerInfo] accessor returning the caller read off that
    invitation, whatever caller an earlier call left behind and whatever
    becomes of the media; the session's [Terminating] or [Terminated] then
    gives back [REGISTERED] with no session, no operation in progress and
    the user state [IDLE], the registerer and the readiness being what they
    were before the call. *)
Theorem call_returns_to_registered :
  forall cfg mediaRenderer0 (inputs : list (Transport * Input))
         (invitation : Invitation) (mediaRenderer : option IMediaStreamRenderer)
         (tr1 tr2 tr3 tr4 : Transport) (st : SessionState),
    let u := run inputs (construct cfg mediaRenderer0) in
    callState u = REGISTERED ->
    terminal st = true ->
    let u3 := run [(tr1, OnInvite invitation); (tr2, AcceptCall mediaRenderer);
                   (tr3, StateChange (ref invitation) SessionState.Established)] u in
    let u4 := run [(tr4, StateChange (ref invitation) st)] u3 in
    callerInfo u3 =
      Returned {| infoState := IN_CALL;
                  infoCallerInfo := Some (caller_of invitation);
                  infoUserState := UserState.UAS |} /\
    callState u4 = REGISTERED /\
    session u4 = None /\
    operationInProgress u4 = Operation.OP_NONE /\
    userState u4 = UserState.IDLE /\
    registerer u4 = registerer u /\
    isReady_ u4 = isReady_ u.
Proof.
  intros cfg mediaRenderer0 inputs invitation mediaRenderer tr1 tr2 tr3 tr4 st
         u Hreg Hst u3 u4.
  pose proof (reachable_consistent cfg mediaRenderer0 inputs) as C. fold u in C.
  (* the invitation *)
  set (u1 := after (step tr1 (OnInvite invitation) u)).
  assert (E1 : u1 = offered invitation u).
  { subst u1. cbn [step]. rewrite (onInvite_registered invitation u Hreg). reflexivity. }
  assert (C1 : consistent u1) by apply step_consistent, C.
  (* the pick-up *)
  set (u2 := after (step tr2 (AcceptCall mediaRenderer) u1)).
  assert (E2 : u2 = set_callState ANSWER_SENT (rendered mediaRenderer u1)).
  { subst u2. cbn [step].
    rewrite (acceptCall_succeeds mediaRenderer u1 invitation);
      [reflexivity|rewrite E1; reflexivity..]. }
  assert (C2 : consistent u2) by apply step_consistent, C1.
  assert (S2 : session u2 = Some (AnInvitation invitation)).
  { rewrite E2, E1. destruct mediaRenderer; reflexivity. }
  (* the session is established *)
  assert (H3 : same_but_stream u3 (picked_up u2)).
  { subst u3. cbn [run]. fold u1. fold u2. rewrite step_StateChange.
    apply (deliver_established tr3 (AnInvitation invitation) u2 _ S2).
    - apply (listener_on_own_emitter _ C2).
    - exists (AnInvitation invitation).
      apply (tracked_is_listened _ C2 _ S2). }
  assert (C3 : consistent u3).
  { subst u3. cbn [run]. repeat apply step_consistent. exact C. }
  assert (S3 : session u3 = Some (AnInvitation invitation)).
  { rewrite (same_but_stream_session _ _ H3). exact S2. }
  (* the session is terminated *)
  assert (E4 : u4 = hung_up u3).
  { subst u4. cbn [run]. rewrite step_StateChange.
    change (ref invitation) with (session_ref (AnInvitation invitation)).
    rewrite (deliver_terminal tr4 st (listeners u3) u3
               (AnInvitation invitation) S3
               (listener_on_own_emitter _ C3)
               (ex_intro (fun c => In (session_ref (AnInvitation invitation), c)
                                      (listeners u3))
                         (AnInvitation invitation)
                         (tracked_is_listened _ C3 _ S3)) Hst).
    reflexivity. }
  split.
  - unfold callerInfo, callState.
    rewrite (f_equal _callState H3 : _callState u3 = IN_CALL).
    rewrite (f_equal _callerInfo H3 : _callerInfo u3 = _callerInfo u2).
    rewrite (f_equal _userState H3 : _userState u3 = _userState u2).
    rewrite E2, E1. destruct mediaRenderer; reflexivity.
  - rewrite E4. repeat split.
    + change (registerer u3 = registerer u).
      rewrite (f_equal registerer H3 : registerer u3 = registerer u2).
      rewrite E2, E1. destruct mediaRenderer; reflexivity.
    + change (isReady (state u3) = isReady (state u)).
      rewrite (f_equal state H3 : state u3 = state u2).
      rewrite E2, E1. destruct mediaRenderer; reflexivity.
Qed.

(** Carol calls after Alice's call has ended; the media fail, the call is
    terminated. *)
Lemma call_returns_to_registered_witness :
  let u := run (Fixtures.call ++
                [(Fixtures.established, StateChange 1 SessionState.Terminated)])
               (construct Fixtures.cfg None) in
  callerInfo
    (run [(Fixtures.bare, OnInvite Fixtures.carol);
          (Fixtures.bare, AcceptCall None);
          (Fixtures.bare, StateChange 2 SessionState.Established)] u) =
    Returned {| infoState := IN_CALL;
                infoCallerInfo :=
                  Some {| callerId := ""; callerName := "Carol";
                          callerHost := "example.org" |};
                infoUserState := UserState.UAS |}.
Proof.
  cbv zeta.
  apply (call_returns_to_registered Fixtures.cfg None
           (Fixtures.call ++
            [(Fixtures.established, StateChange 1 SessionState.Terminated)])
           Fixtures.carol None Fixtures.bare Fixtures.bare Fixtures.bare
           Fixtures.bare SessionState.Terminated); reflexivity.
Defined.

(** *** Acknowledgments *)

Lemma onAccept_cases u :
  onAccept u =
    match _opInProgress u with
    | Operation.OP_REGISTER =>
        {| completion := Returned tt; after := set_callState REGISTERED u;
           effects := [Emit registered; Emit stateChanged] |}
    | Operation.OP_UNREGISTER =>
        {| completion := Returned tt; after := set_callState UNREGISTERED u;
           effects := [Emit unregistered; Emit stateChanged] |}
    | _ => {| completion := Returned tt; after := u; effects := [] |}
    end.
Proof.
  unfold onAccept, emit. unfold_monad. cbn.
  destruct (_opInProgress u) eqn:E; cbn; rewrite ?E; reflexivity.
Qed.

Lemma onReject_cases error u :
  onReject error u =
    {| completion := Returned tt; after := u;
       effects :=
         match _opInProgress u with
         | Operation.OP_REGISTER => [Emit (registrationerror error)]
         | Operation.OP_UNREGISTER => [Emit (unregistrationerror error)]
         | _ => []
         end |}.
Proof.
  unfold onReject, emit. unfold_monad. cbn.
  destruct (_opInProgress u) eqn:E; cbn; rewrite ?E; reflexivity.
Qed.

(** An acknowledgment that finds neither [OP_REGISTER] nor [OP_UNREGISTER]
    in progress, accepting or rejecting, is ignored: no field changes and
    nothing is emitted. *)
Theorem acknowledgment_ignored_without_exchange :
  forall (u : VoIPUser) (error : ErrorValue),
    operationInProgress u <> Operation.OP_REGISTER ->
    operationInProgress u <> Operation.OP_UNREGISTER ->
    onAccept u = {| completion := Returned tt; after := u; effects := [] |} /\
    onReject error u = {| completion := Returned tt; after := u; effects := [] |}.
Proof.
  intros u error Hr Hu. unfold operationInProgress in *.
  rewrite onAccept_cases, onReject_cases.
  destruct (_opInProgress u); try (exfalso; apply Hr; reflexivity);
    try (exfalso; apply Hu; reflexivity); split; reflexivity.
Qed.

(** An acknowledgment in the middle of Alice's call. *)
Lemma acknowledgment_ignored_without_exchange_witness :
  let u := run Fixtures.call (construct Fixtures.cfg None) in
  after (onAccept u) = u /\ effects (onReject "busy" u) = [].
Proof.
  cbv zeta.
  destruct (acknowledgment_ignored_without_exchange
              (run Fixtures.call (construct Fixtures.cfg None)) "busy")
    as [Ha Hr]; [discriminate..|].
  rewrite Ha, Hr. split; reflexivity.
Defined.

(** Acknowledgments repeat: since neither [onAccept] nor [onReject] clears
    the operation in progress, a second acknowledgment does exactly what the
    first did, the same events are emitted again and the object stays as the
    first left it. *)
Theorem acknowledgment_repeats :
  forall (u : VoIPUser) (error : ErrorValue),
    onAccept (after (onAccept u)) = onAccept u /\
    onReject error (after (onReject error u)) = onReject error u.
Proof.
  intros u error. rewrite !onAccept_cases, !onReject_cases. cbn [after].
  destruct (_opInProgress u) eqn:E; cbn; rewrite ?E; split; reflexivity.
Qed.

(** *** The connect acknowledgment *)

(** The connect acknowledgment always sets [callState] to
    [SERVER_CONNECTED] and the readiness, emits [connected] alone and keeps
    the session and the operation in progress.  So when it arrives while a
    session is tracked, the call can no longer be ended or rejected from the
    UI ([endCall] and [rejectCall] throw on the call state) and any
    invitation is rejected. *)
Theorem connect_acknowledgment_overrides_call_state :
  forall (tr : Transport) (u : VoIPUser) (s : Session) (invitation : Invitation),
    session u = Some s ->
    let u' := after (onConnect u) in
    completion (onConnect u) = Returned tt /\
    effects (onConnect u) = [Emit connected] /\
    callState u' = SERVER_CONNECTED /\
    isReady_ u' = true /\
    session u' = Some s /\
    operationInProgress u' = operationInProgress u /\
    endCall tr u' =
      {| completion := Thrown "Incorrect call State = SERVER_CONNECTED";
         after := u'; effects := [] |} /\
    rejectCall u' =
      {| completion := Thrown "Incorrect call State = SERVER_CONNECTED";
         after := u'; effects := [] |} /\
    onInvite invitation u' =
      {| completion := Returned tt; after := u';
         effects := [InvitationReject (ref invitation)] |}.
Proof.
  intros tr u s invitation Hs u'. subst u'.
  unfold onConnect, endCall, rejectCall, onInvite, handleIncomingCall, emit,
    callState, operationInProgress, isReady_.
  unfold_monad. cbn.
  destruct (userAgent u); cbn; rewrite Hs; repeat split.
Qed.

(** The transport reconnects in the middle of Alice's call. *)
Lemma connect_acknowledgment_overrides_call_state_witness :
  let u := run Fixtures.call (construct Fixtures.cfg None) in
  callState u = IN_CALL /\
  completion (endCall Fixtures.established (after (onConnect u))) =
    Thrown "Incorrect call State = SERVER_CONNECTED".
Proof.
  cbv zeta. split; [reflexivity|].
  destruct (connect_acknowledgment_overrides_call_state Fixtures.established
              (run Fixtures.call (construct Fixtures.cfg None))
              (AnInvitation Fixtures.alice) Fixtures.carol eq_refl)
    as (_ & _ & _ & _ & _ & _ & Hend & _).
  rewrite Hend. reflexivity.
Defined.

Lemma run_connection_events inputs :
  forall u a,
    forallb (fun ti => is_connection_event (snd ti)) inputs = true ->
    userAgent u = Some a ->
    let u' := run inputs u in
    userAgent u' = Some a /\
    operationInProgress u' = operationInProgress u /\
    session u' = session u /\
    (if existsb (fun ti => is_connect (snd ti)) inputs
     then callState u' = SERVER_CONNECTED /\
          registerer u' = Some {| agent := a |}
     else callState u' = callState u /\ registerer u' = registerer u).
Proof.
  induction inputs as [|[tr i] rest IH]; intros u a Hall Ha; [repeat split; exact Ha|].
  cbn [forallb snd] in Hall. apply andb_prop in Hall. destruct Hall as [Hi Hrest].
  cbn [run existsb snd].
  destruct i as [| |error| | | | | | | | |]; try discriminate Hi.
  - (* the connect acknowledgment *)
    assert (E : after (step tr OnConnect u) =
                set_registerer (Some {| agent := a |})
                  (set_isReady true (set_callState SERVER_CONNECTED u))).
    { cbn [step]. unfold onConnect, emit. unfold_monad. cbn. rewrite Ha. reflexivity. }
    rewrite E. cbn [is_connect orb].
    destruct (IH (set_registerer (Some {| agent := a |})
                    (set_isReady true (set_callState SERVER_CONNECTED u)))
                 a Hrest Ha) as (Hua & Hop & Hs & Hrestc).
    split; [exact Hua|]. split; [exact Hop|]. split; [exact Hs|].
    destruct (existsb (fun ti => is_connect (snd ti)) rest); exact Hrestc.
  - (* a disconnect *)
    assert (E : callState (after (step tr (OnDisconnect error) u)) = callState u /\
                registerer (after (step tr (OnDisconnect error) u)) = registerer u /\
                userAgent (after (step tr (OnDisconnect error) u)) = userAgent u /\
                operationInProgress (after (step tr (OnDisconnect error) u)) =
                  operationInProgress u /\
                session (after (step tr (OnDisconnect error) u)) = session u).
    { destruct error; repeat split. }
    destruct E as (Ec & Er & Eu & Eo & Es).
    destruct (IH (after (step tr (OnDisconnect error) u)) a Hrest
                (eq_trans Eu Ha)) as (Hua & Hop & Hs & Hrestc).
    cbn [is_connect orb]. rewrite <- Ec, <- Er, <- Eo, <- Es.
    split; [exact Hua|]. split; [exact Hop|]. split; [exact Hs|exact Hrestc].
Qed.

(** After [init] on a fresh object, whatever connect acknowledgments and
    disconnects the transport delivers, with or without an error,
    [OP_CONNECT] stays in progress and no session appears: no connection
    callback clears the operation.  As long as no connect acknowledgment has
    come the object is [IDLE] without a registerer, and from the first one
    on it is [SERVER_CONNECTED] with a registerer of its user agent. *)
Theorem connection_events_keep_connect_in_progress :
  forall cfg (mediaRenderer : option IMediaStreamRenderer) (tr : Transport)
         (inputs : list (Transport * Input)),
    forallb (fun ti => is_connection_event (snd ti)) inputs = true ->
    let u := run ((tr, Init) :: inputs) (construct cfg mediaRenderer) in
    operationInProgress u = Operation.OP_CONNECT /\
    session u = None /\
    (if existsb (fun ti => is_connect (snd ti)) inputs
     then callState u = SERVER_CONNECTED /\
          exists a, userAgent u = Some a /\ registerer u = Some {| agent := a |}
     else callState u = IDLE /\ registerer u = None).
Proof.
  intros cfg mediaRenderer tr inputs Hall u. subst u. cbn [run].
  destruct (run_connection_events inputs
              (after (step tr Init (construct cfg mediaRenderer)))
              (agent_of cfg) Hall eq_refl) as (Hua & Hop & Hs & Hc).
  split; [exact Hop|]. split; [exact Hs|].
  destruct (existsb (fun ti => is_connect (snd ti)) inputs).
  - destruct Hc as [Hc Hr]. split; [exact Hc|].
    exists (agent_of cfg). split; [exact Hua|exact Hr].
  - exact Hc.
Qed.

(** The connection is lost with an error, then found again. *)
Lemma connection_events_keep_connect_in_progress_witness :
  let u := run [(Fixtures.bare, Init);
                (Fixtures.bare, OnDisconnect (Some "timeout"));
                (Fixtures.bare, OnConnect)]
               (construct Fixtures.cfg None) in
  operationInProgress u = Operation.OP_CONNECT /\
  callState u = SERVER_CONNECTED.
Proof.
  cbv zeta.
  destruct (connection_events_keep_connect_in_progress Fixtures.cfg None
              Fixtures.bare
              [(Fixtures.bare, OnDisconnect (Some "timeout"));
               (Fixtures.bare, OnConnect)] eq_refl)
    as (Hop & _ & Hc & _).
  split; [exact Hop|exact Hc].
Defined.

(** *** What the commands leave alone *)

(** A call of the UI layer ([init], [register], [unregister], [acceptCall],
    [rejectCall], [endCall]) that sends the transport no reject and no bye
    (so every such call but a [rejectCall] or an [endCall] that goes through
    to the session) touches neither the session, the caller info, the user
    state, the readiness, the remote stream nor the listeners, and the only
    change of [callState] it can make is [acceptCall]'s from
    [OFFER_RECEIVED] to [ANSWER_SENT]: entering a call, establishing it and
    leaving it come with the transport's callbacks. *)
Theorem commands_leave_call_data :
  forall (tr : Transport) (i : Input) (u : VoIPUser),
    is_command i = true ->
    forallb (fun e => negb (ends_session e)) (effects (step tr i u)) = true ->
    let u' := after (step tr i u) in
    session u' = session u /\
    _callerInfo u' = _callerInfo u /\
    userState u' = userState u /\
    isReady_ u' = isReady_ u /\
    remoteStream u' = remoteStream u /\
    listeners u' = listeners u /\
    (callState u' = callState u \/
     (exists mediaRenderer, i = AcceptCall mediaRenderer) /\
     callState u = OFFER_RECEIVED /\ callState u' = ANSWER_SENT).
Proof.
  intros tr i u Hi _ u'. subst u'.
  destruct i; try discriminate Hi; unfold userState, isReady_, callState;
    try solve [unfold_methods; unfold_monad; branch;
               repeat split; first [cbn; congruence | left; cbn; congruence]].
  (* AcceptCall *)
  cbn [step].
  destruct (CallStates_eqb (_callState u) OFFER_RECEIVED
            && Operation.eqb (_opInProgress u) Operation.OP_PROCESS_INVITE) eqn:G.
  - pose proof G as G'. apply andb_prop in G'. destruct G' as [Ec _].
    apply CallStates_eqb_eq in Ec.
    assert (H : after (acceptCall mediaRenderer u) =
                set_callState ANSWER_SENT (rendered mediaRenderer u)).
    { unfold acceptCall, rendered. unfold_monad.
      destruct mediaRenderer; cbn; rewrite G; cbn;
        destruct (session u) as [[?|?]|]; reflexivity. }
    rewrite H. destruct mediaRenderer; cbn; repeat split; right;
      (split; [eexists; reflexivity|split; [exact Ec|reflexivity]]).
  - rewrite (acceptCall_guard_fails mediaRenderer u G).
    destruct mediaRenderer; cbn; repeat split; left; reflexivity.
Qed.

(** Registering in the middle of Alice's call leaves the call as it is. *)
Lemma commands_leave_call_data_witness :
  let u := run Fixtures.call (construct Fixtures.cfg None) in
  callState (after (step Fixtures.established Register u)) = IN_CALL /\
  session (after (step Fixtures.established Register u)) = session u.
Proof.
  cbv zeta.
  destruct (commands_leave_call_data Fixtures.established Register
              (run Fixtures.call (construct Fixtures.cfg None)) eq_refl eq_refl)
    as (Hs & _ & _ & _ & _ & _ & [Hc|(_ & Hc & _)]).
  - split; [rewrite Hc; reflexivity|exact Hs].
  - discriminate Hc.
Defined.

(** The actions of the call context.  [mute], [unmute], [pause] and
    [resume] reach neither the client nor the transport.  [pickUp] passes no
    renderer, so whether it goes through or throws the renderer is never
    replaced, and all it changes is [callState], to [ANSWER_SENT], on a
    pending offer.  [end] and [reject], whenever they send the transport no
    bye and no reject (they throw, or the session is already terminating),
    leave the client exactly as it was. *)
Theorem call_actions_only_answer :
  forall (tr : Transport) (a : CallProvider.Action) (u : VoIPUser),
    let r := CallProvider.act tr a u in
    (In a [CallProvider.mute; CallProvider.unmute;
           CallProvider.pause; CallProvider.resume] ->
     r = {| completion := Returned tt; after := u; effects := [] |}) /\
    (a = CallProvider.pickUp ->
     forallb (fun e => negb (ends_session e)) (effects r) = true /\
     (after r = u \/
      callState u = OFFER_RECEIVED /\
      operationInProgress u = Operation.OP_PROCESS_INVITE /\
      after r = set_callState ANSWER_SENT u)) /\
    (a = CallProvider.end_ \/ a = CallProvider.reject ->
     forallb (fun e => negb (ends_session e)) (effects r) = true ->
     after r = u /\ effects r = []).
Proof.
  intros tr a u r. subst r. split; [|split].
  - intros [<-|[<-|[<-|[<-|[]]]]]; reflexivity.
  - intros ->. cbn [CallProvider.act].
    destruct (CallStates_eqb (_callState u) OFFER_RECEIVED
              && Operation.eqb (_opInProgress u) Operation.OP_PROCESS_INVITE)
      eqn:G.
    + pose proof G as G'. apply andb_prop in G'. destruct G' as [Ec Eo].
      apply CallStates_eqb_eq in Ec. apply Operation_eqb_eq in Eo.
      unfold acceptCall. unfold_monad. cbn. rewrite G. cbn.
      destruct (session u) as [[?|?]|]; cbn; (split; [reflexivity|]);
        right; repeat split; assumption.
    + rewrite (acceptCall_guard_fails None u G). cbn.
      split; [reflexivity|left; reflexivity].
  - intros [-> | ->]; cbn [CallProvider.act].
    + unfold endCall. unfold_monad. branch; intro H; try discriminate H;
        split; reflexivity.
    + unfold rejectCall. unfold_monad. branch; intro H; try discriminate H;
        split; reflexivity.
Qed.

(** Muting, and picking up Alice's offer, through the call context; ending
    when no call is on. *)
Lemma call_actions_only_answer_witness :
  let u := run (Fixtures.registration ++ [(Fixtures.bare, OnInvite Fixtures.alice)])
               (construct Fixtures.cfg (Some Fixtures.renderer)) in
  CallProvider.act Fixtures.bare CallProvider.mute u =
    {| completion := Returned tt; after := u; effects := [] |} /\
  mediaStreamRendered (after (CallProvider.act Fixtures.bare CallProvider.pickUp u)) =
    Some Fixtures.renderer /\
  after (CallProvider.act Fixtures.bare CallProvider.end_ u) = u.
Proof.
  cbv zeta.
  pose proof (fun a =>
    call_actions_only_answer Fixtures.bare a
      (run (Fixtures.registration ++ [(Fixtures.bare, OnInvite Fixtures.alice)])
           (construct Fixtures.cfg (Some Fixtures.renderer)))) as H.
  split; [|split].
  - apply (proj1 (H CallProvider.mute)). left. reflexivity.
  - destruct (proj2 (proj1 (proj2 (H CallProvider.pickUp)) eq_refl))
      as [E|(_ & _ & E)]; rewrite E; reflexivity.
  - apply (proj2 (proj2 (H CallProvider.end_)) (or_introl eq_refl)). reflexivity.
Defined.

(** *** The local stream *)

(** [localMediaStream] is undefined, and no error, whenever no session is
    tracked or the tracked session has no description handler; it throws
    exactly when the tracked session's handler is not the web handler; and
    on any object reached from the constructor it is undefined right after
    the tracked session's emitter has delivered [Terminating] or
    [Terminated], whatever the transport then holds. *)
Theorem localMediaStream_undefined_without_session :
  forall (tr : Transport) (localStream : nat -> MediaStream) (u : VoIPUser),
    (session u = None -> localMediaStream tr localStream u = Returned None) /\
    ((exists msg, localMediaStream tr localStream u = Thrown msg) <->
     (exists s, session u = Some s /\
                sessionDescriptionHandler tr (session_ref s) =
                  Some OtherSessionDescriptionHandler)) /\
    (forall cfg mediaRenderer inputs s st tr',
        u = run inputs (construct cfg mediaRenderer) ->
        session u = Some s -> terminal st = true ->
        localMediaStream tr localStream
          (after (step tr' (StateChange (session_ref s) st) u)) = Returned None).
Proof.
  intros tr localStream u. unfold localMediaStream. split; [|split].
  - intros ->. reflexivity.
  - split.
    + intros [msg H]. destruct (session u) as [s|]; [|discriminate H].
      exists s. split; [reflexivity|].
      destruct (sessionDescriptionHandler tr (session_ref s)) as [[?|]|];
        try discriminate H. reflexivity.
    + intros (s & -> & ->). eexists. reflexivity.
  - intros cfg mediaRenderer inputs s st tr' Hu Hs Hst.
    pose proof (reachable_consistent cfg mediaRenderer inputs) as C.
    rewrite <- Hu in C.
    rewrite step_StateChange.
    rewrite (deliver_terminal tr' st (listeners u) u s Hs
               (listener_on_own_emitter _ C)
               (ex_intro (fun c => In (session_ref s, c) (listeners u)) s
                         (tracked_is_listened _ C _ Hs)) Hst).
    reflexivity.
Qed.

(** The local stream before any call, and in Alice's established call. *)
Lemma localMediaStream_undefined_without_session_witness :
  localMediaStream Fixtures.established (fun r => 40 + r)
    (run Fixtures.registration (construct Fixtures.cfg None)) = Returned None /\
  localMediaStream Fixtures.established (fun r => 40 + r)
    (run Fixtures.call (construct Fixtures.cfg None)) = Returned (Some 41).
Proof.
  split.
  - apply (proj1 (localMediaStream_undefined_without_session
                    Fixtures.established (fun r => 40 + r)
                    (run Fixtures.registration (construct Fixtures.cfg None)))).
    reflexivity.
  - reflexivity.
Defined.

(** *** A register exchange in the middle of a call *)

(** A register exchange that completes at any moment, also while an offer is
    pending or a call is on, puts [callState] back to [REGISTERED] with the
    session still tracked; the next invitation is then taken, not rejected,
    and replaces the tracked session, with no reject or bye issued for the
    session that was tracked.  Without a registerer not even the register
    command goes out. *)
Theorem register_exchange_lets_invitation_replace_session :
  forall (u : VoIPUser) (s : Session) (invitation : Invitation),
    session u = Some s ->
    let registered_ := after (onAccept (after (register u))) in
    let r := onInvite invitation registered_ in
    callState registered_ = REGISTERED /\
    session registered_ = Some s /\
    completion r = Returned tt /\
    session (after r) = Some (AnInvitation invitation) /\
    callState (after r) = OFFER_RECEIVED /\
    _callerInfo (after r) = Some (caller_of invitation) /\
    (effects (register u) ++ effects (onAccept (after (register u))) ++ effects r =
     match registerer u with
     | Some _ => [RegistererRegister]
     | None => []
     end ++
     [Emit registered; Emit stateChanged;
      Emit (incomingcall (caller_of invitation)); Emit stateChanged])%list.
Proof.
  intros u s invitation Hs registered_ r. subst r registered_.
  assert (Hreg : after (register u) = set_opInProgress Operation.OP_REGISTER u).
  { unfold register. unfold_monad. cbn. destruct (registerer u); reflexivity. }
  assert (Heff : effects (register u) =
                 match registerer u with
                 | Some _ => [RegistererRegister]
                 | None => []
                 end).
  { unfold register. unfold_monad. cbn. destruct (registerer u); reflexivity. }
  rewrite Heff, Hreg, onAccept_cases. cbn [_opInProgress set_opInProgress after effects].
  rewrite onInvite_registered by reflexivity.
  cbn. rewrite Hs. repeat split.
Qed.

(** Alice's call is on when a register exchange completes and Carol
    calls. *)
Lemma register_exchange_lets_invitation_replace_session_witness :
  let u := run Fixtures.call (construct Fixtures.cfg None) in
  callState u = IN_CALL /\
  session (after (onInvite Fixtures.carol (after (onAccept (after (register u)))))) =
    Some (AnInvitation Fixtures.carol).
Proof.
  cbv zeta. split; [reflexivity|].
  apply (register_exchange_lets_invitation_replace_session
           (run Fixtures.call (construct Fixtures.cfg None))
           (AnInvitation Fixtures.alice) Fixtures.carol eq_refl).
Defined.

(** ** Beyond the claims: the emoji routes *)

Lemma Js_get_set_same o k v : Js.get (Js.set o k v) k = v.
Proof.
  induction o as [|[k' v'] o IH]; cbn.
  - rewrite String.eqb_refl. reflexivity.
  - destruct (String.eqb k' k) eqn:E; cbn; rewrite E; [reflexivity|exact IH].
Qed.

Lemma Js_get_set_other o k v k' :
  k <> k' -> Js.get (Js.set o k v) k' = Js.get o k'.
Proof.
  intro H. induction o as [|[k0 v0] o IH]; cbn.
  - destruct (String.eqb_spec k k'); [contradiction|reflexivity].
  - destruct (String.eqb_spec k0 k) as [->|E]; cbn.
    + destruct (String.eqb_spec k k'); [contradiction|reflexivity].
    + destruct (String.eqb k0 k'); [reflexivity|exact IH].
Qed.

Ltac js_get :=
  repeat first [rewrite Js_get_set_same
               |rewrite Js_get_set_other by discriminate].

Lemma Js_split_free sep s : Js.free_of sep s = true -> Js.split sep s = [s].
Proof.
  induction s as [|c s IH]; cbn; [reflexivity|].
  intro H. apply andb_prop in H. destruct H as [Hc Hs].
  apply negb_true_iff in Hc. rewrite Hc, (IH Hs). reflexivity.
Qed.

Lemma Js_split_app sep a b :
  Js.free_of sep a = true ->
  Js.split sep (a ++ String sep b) = a :: Js.split sep b.
Proof.
  induction a as [|c a IH]; cbn.
  - intros _. rewrite Ascii.eqb_refl. reflexivity.
  - intro H. apply andb_prop in H. destruct H as [Hc Ha].
    apply negb_true_iff in Hc. rewrite Hc, (IH Ha). reflexivity.
Qed.

(** The extension the routes store is what stands between the first and the
    second slash of the MIME type: the subtype of [type/subtype], also when
    more follows after another slash; a MIME type without a slash gives no
    extension at all ([undefined]); one that ends with its first slash
    gives the empty string. *)
Theorem extension_is_mime_subtype :
  forall type subtype more : string,
    Js.free_of Js.slash type = true ->
    Js.free_of Js.slash subtype = true ->
    EmojiCustom.extension_of (type ++ "/" ++ subtype) = Js.str subtype /\
    EmojiCustom.extension_of (type ++ "/" ++ subtype ++ "/" ++ more) =
      Js.str subtype /\
    EmojiCustom.extension_of type = Js.undefined /\
    EmojiCustom.extension_of (type ++ "/") = Js.str "".
Proof.
  intros type subtype more Ht Hs. unfold EmojiCustom.extension_of.
  change "/" with (String Js.slash EmptyString). cbn [String.append].
  repeat split.
  - rewrite (Js_split_app _ _ _ Ht), (Js_split_free _ _ Hs). reflexivity.
  - rewrite (Js_split_app _ _ _ Ht), (Js_split_app _ _ _ Hs). reflexivity.
  - rewrite (Js_split_free _ _ Ht). reflexivity.
  - rewrite (Js_split_app _ _ _ Ht). reflexivity.
Qed.

(** The extension of a PNG and of an SVG upload. *)
Lemma extension_is_mime_subtype_witness :
  EmojiCustom.extension_of "image/png" = Js.str "png" /\
  EmojiCustom.extension_of "image/svg+xml" = Js.str "svg+xml".
Proof.
  split.
  - apply (extension_is_mime_subtype "image" "png" ""); reflexivity.
  - apply (extension_is_mime_subtype "image" "svg+xml" ""); reflexivity.
Defined.

(** The three routes validate before they act: whenever one of them ends
    otherwise than with the success response (the image check fails, the
    [_id] or the [emojiId] is missing, the emoji is unknown, the form
    announces a new file and carries none), it has called no method. *)
Theorem emoji_routes_call_nothing_on_failure :
  forall (isImage : list nat -> bool)
         (findOneById : Js.Value -> option EmojiCustom.Emoji)
         (emoji : EmojiCustom.UploadedFile)
         (optionalEmoji : option EmojiCustom.UploadedFile)
         (fields bodyParams : Js.Obj),
    (EmojiCustom.ending (EmojiCustom.create isImage emoji fields)
       <> EmojiCustom.responded EmojiCustom.success ->
     EmojiCustom.calls (EmojiCustom.create isImage emoji fields) = []) /\
    (EmojiCustom.ending
       (EmojiCustom.update isImage findOneById optionalEmoji fields)
       <> EmojiCustom.responded EmojiCustom.success ->
     EmojiCustom.calls
       (EmojiCustom.update isImage findOneById optionalEmoji fields) = []) /\
    (EmojiCustom.ending (EmojiCustom.delete bodyParams)
       <> EmojiCustom.responded EmojiCustom.success ->
     EmojiCustom.calls (EmojiCustom.delete bodyParams) = []).
Proof.
  intros isImage findOneById emoji optionalEmoji fields bodyParams.
  unfold EmojiCustom.create, EmojiCustom.update, EmojiCustom.delete.
  repeat split; intro H;
    repeat match goal with
           | _ : context [match ?x with _ => _ end] |- _ =>
               lazymatch x with
               | context [match _ with _ => _ end] => fail
               | _ => destruct x eqn:?
               end
           end;
    cbn in *; try reflexivity; exfalso; apply H; reflexivity.
Qed.

(** An upload that is not an image, and a deletion without an id. *)
Lemma emoji_routes_call_nothing_on_failure_witness :
  EmojiCustom.calls
    (EmojiCustom.create (fun _ => false)
       {| EmojiCustom.fileBuffer := [1; 2]; EmojiCustom.mimetype := "text/plain" |}
       [("name", Js.str "party")]) = [] /\
  EmojiCustom.calls (EmojiCustom.delete [("emojiId", Js.str "")]) = [].
Proof.
  destruct (emoji_routes_call_nothing_on_failure (fun _ => false) (fun _ => None)
              {| EmojiCustom.fileBuffer := [1; 2];
                 EmojiCustom.mimetype := "text/plain" |}
              None [("name", Js.str "party")] [("emojiId", Js.str "")])
    as (Hcreate & _ & Hdelete).
  split; [apply Hcreate|apply Hdelete]; discriminate.
Defined.

(** [emoji-custom.create] with an image responds success after exactly two
    calls, [insertOrUpdateEmoji] then [uploadEmojiCustom] with the file's
    buffer and MIME type, both with the same data: the form's fields, with
    the extension read off the MIME type, [newFile] true and the aliases
    defaulting to the empty string. *)
Theorem emoji_create_inserts_then_uploads :
  forall (isImage : list nat -> bool) (emoji : EmojiCustom.UploadedFile)
         (fields : Js.Obj),
    isImage (EmojiCustom.fileBuffer emoji) = true ->
    exists emojiData,
      EmojiCustom.create isImage emoji fields =
        {| EmojiCustom.ending := EmojiCustom.responded EmojiCustom.success;
           EmojiCustom.calls :=
             [EmojiCustom.insertOrUpdateEmoji emojiData;
              EmojiCustom.uploadEmojiCustom (EmojiCustom.fileBuffer emoji)
                (EmojiCustom.mimetype emoji) emojiData] |} /\
      Js.get emojiData "extension" =
        EmojiCustom.extension_of (EmojiCustom.mimetype emoji) /\
      Js.get emojiData "newFile" = Js.boolean true /\
      Js.get emojiData "aliases" =
        (if Js.truthy (Js.get fields "aliases") then Js.get fields "aliases"
         else Js.str "") /\
      (forall k, k <> "extension" -> k <> "newFile" -> k <> "aliases" ->
                 Js.get emojiData k = Js.get fields k).
Proof.
  intros isImage emoji fields H. unfold EmojiCustom.create. rewrite H. cbn [negb].
  eexists. split; [reflexivity|].
  unfold EmojiCustom.aliases_or_empty. repeat split; js_get; try reflexivity.
  intros k H1 H2 H3.
  rewrite !Js_get_set_other by (intro E; subst k; contradiction).
  reflexivity.
Qed.

(** A PNG called party with no aliases. *)
Lemma emoji_create_inserts_then_uploads_witness :
  EmojiCustom.calls
    (EmojiCustom.create (fun _ => true)
       {| EmojiCustom.fileBuffer := [137; 80]; EmojiCustom.mimetype := "image/png" |}
       [("name", Js.str "party")]) =
    let emojiData :=
      [("name", Js.str "party"); ("extension", Js.str "png");
       ("newFile", Js.boolean true); ("aliases", Js.str "")] in
    [EmojiCustom.insertOrUpdateEmoji emojiData;
     EmojiCustom.uploadEmojiCustom [137; 80] "image/png" emojiData].
Proof.
  destruct (emoji_create_inserts_then_uploads (fun _ => true)
              {| EmojiCustom.fileBuffer := [137; 80];
                 EmojiCustom.mimetype := "image/png" |}
              [("name", Js.str "party")] eq_refl) as (emojiData & Hrun & _).
  rewrite Hrun. cbn [EmojiCustom.calls].
  injection Hrun as <-. reflexivity.
Defined.

(** [emoji-custom.update] of a stored emoji goes by the form field
    [newFile], not by the presence of a file.  Without the field it calls
    [insertOrUpdateEmoji] alone, with the stored extension, and uploads
    nothing even when a file came with the form.  With the field it needs
    the file: absent, the route ends in a [TypeError]; an image, it calls
    [insertOrUpdateEmoji] then [uploadEmojiCustom] with the extension read
    off the MIME type.  In the data passed, [newFile] tells whether a
    non-empty file came with the form, and [previousName] and
    [previousExtension] are the stored emoji's. *)
Theorem emoji_update_goes_by_form_field :
  forall (isImage : list nat -> bool)
         (findOneById : Js.Value -> option EmojiCustom.Emoji)
         (emoji : option EmojiCustom.UploadedFile) (fields : Js.Obj)
         (stored : EmojiCustom.Emoji),
    Js.truthy (Js.get fields "_id") = true ->
    findOneById (Js.get fields "_id") = Some stored ->
    let run := EmojiCustom.update isImage findOneById emoji fields in
    let newFile :=
      Js.boolean match emoji with
                 | Some f => negb (Nat.eqb (List.length (EmojiCustom.fileBuffer f)) 0)
                 | None => false
                 end in
    let describes (emojiData : Js.Obj) (extension : Js.Value) :=
      Js.get emojiData "extension" = extension /\
      Js.get emojiData "newFile" = newFile /\
      Js.get emojiData "previousName" = Js.str (EmojiCustom.name stored) /\
      Js.get emojiData "previousExtension" =
        Js.str (EmojiCustom.extension stored) in
    (Js.truthy (Js.get fields "newFile") = false ->
     exists emojiData,
       run = {| EmojiCustom.ending := EmojiCustom.responded EmojiCustom.success;
                EmojiCustom.calls := [EmojiCustom.insertOrUpdateEmoji emojiData] |} /\
       describes emojiData (Js.str (EmojiCustom.extension stored))) /\
    (Js.truthy (Js.get fields "newFile") = true ->
     match emoji with
     | None =>
         run = {| EmojiCustom.ending := EmojiCustom.TypeError;
                  EmojiCustom.calls := [] |}
     | Some f =>
         isImage (EmojiCustom.fileBuffer f) = true ->
         exists emojiData,
           run = {| EmojiCustom.ending := EmojiCustom.responded EmojiCustom.success;
                    EmojiCustom.calls :=
                      [EmojiCustom.insertOrUpdateEmoji emojiData;
                       EmojiCustom.uploadEmojiCustom (EmojiCustom.fileBuffer f)
                         (EmojiCustom.mimetype f) emojiData] |} /\
           describes emojiData
             (EmojiCustom.extension_of (EmojiCustom.mimetype f))
     end).
Proof.
  intros isImage findOneById emoji fields stored Hid Hfound run newFile describes.
  subst run describes newFile. unfold EmojiCustom.update.
  rewrite Hid, Hfound. cbv zeta. cbn [negb]. js_get. split; intro Hnew; rewrite Hnew.
  - eexists. split; [reflexivity|]. repeat split; js_get; reflexivity.
  - destruct emoji as [f|]; [|reflexivity].
    intro Himg. rewrite Himg. cbn [negb].
    eexists. split; [reflexivity|]. repeat split; js_get; reflexivity.
Qed.

(** A new name for a stored emoji, sent together with a file but without
    the field [newFile]: the file is not uploaded. *)
Lemma emoji_update_goes_by_form_field_witness :
  EmojiCustom.calls
    (EmojiCustom.update (fun _ => true)
       (fun _ => Some {| EmojiCustom.name := "party";
                         EmojiCustom.extension := "gif" |})
       (Some {| EmojiCustom.fileBuffer := [137; 80];
                EmojiCustom.mimetype := "image/png" |})
       [("_id", Js.str "e1"); ("name", Js.str "fiesta")]) =
    [EmojiCustom.insertOrUpdateEmoji
       [("_id", Js.str "e1"); ("name", Js.str "fiesta");
        ("previousName", Js.str "party"); ("previousExtension", Js.str "gif");
        ("aliases", Js.str ""); ("extension", Js.str "gif");
        ("newFile", Js.boolean true)]].
Proof.
  destruct (proj1 (emoji_update_goes_by_form_field (fun _ => true)
                     (fun _ => Some {| EmojiCustom.name := "party";
                                       EmojiCustom.extension := "gif" |})
                     (Some {| EmojiCustom.fileBuffer := [137; 80];
                              EmojiCustom.mimetype := "image/png" |})
                     [("_id", Js.str "e1"); ("name", Js.str "fiesta")]
                     {| EmojiCustom.name := "party";
                        EmojiCustom.extension := "gif" |}
                     eq_refl eq_refl) eq_refl) as (emojiData & Hrun & _).
  rewrite Hrun. injection Hrun as <-. reflexivity.
Defined.

(** ** Beyond the claims: the department agents' finders *)

Lemma existsb_eqb_In s values :
  existsb (String.eqb s) values = true <-> In s values.
Proof.
  rewrite existsb_exists. split.
  - intros (x & Hin & E). apply String.eqb_eq in E. subst x. exact Hin.
  - intro H. exists s. split; [exact H|apply String.eqb_refl].
Qed.

(** An empty list means opposite things to two finders: [findUsersInQueue]
    then filters on nothing and selects every document, while
    [findByDepartmentIds] selects none.  With a list that is not empty,
    [findUsersInQueue] selects exactly the documents whose [username] is in
    the list; [findByDepartmentIds] always selects exactly those whose
    [departmentId] is in the list. *)
Theorem empty_list_selects_all_users_but_no_department :
  forall (document : Js.Obj) (users ids : list string) (options : option Js.Obj),
    let queue :=
      LivechatDepartmentAgents.query
        (LivechatDepartmentAgents.findUsersInQueue users options) in
    let departments :=
      LivechatDepartmentAgents.query
        (LivechatDepartmentAgents.findByDepartmentIds ids options) in
    (users = [] -> LivechatDepartmentAgents.selects queue document = true) /\
    (users <> [] ->
     (LivechatDepartmentAgents.selects queue document = true <->
      exists u, Js.get document "username" = Js.str u /\ In u users)) /\
    (LivechatDepartmentAgents.selects departments document = true <->
     exists d, Js.get document "departmentId" = Js.str d /\ In d ids) /\
    (ids = [] -> LivechatDepartmentAgents.selects departments document = false).
Proof.
  intros document users ids options queue departments. subst queue departments.
  assert (Hin : forall field values,
             LivechatDepartmentAgents.selects
               [(field, LivechatDepartmentAgents.in_ values)] document = true <->
             exists x, Js.get document field = Js.str x /\ In x values).
  { intros field values. cbn. rewrite andb_true_r.
    destruct (Js.get document field) as [|s|b|t]; split;
      try discriminate; try (intros (x & E & _); discriminate E).
    - intro H. exists s. split; [reflexivity|apply existsb_eqb_In, H].
    - intros (x & E & H). injection E as <-. apply existsb_eqb_In, H. }
  split; [|split; [|split]].
  - intros ->. reflexivity.
  - intro H. destruct users as [|u users]; [contradiction|]. apply Hin.
  - apply Hin.
  - intros ->. cbn. destruct (Js.get document "departmentId"); reflexivity.
Qed.

(** An agent in the queue, looked for with an empty list and with a list of
    other users. *)
Lemma empty_list_selects_all_users_but_no_department_witness :
  let agent := [("username", Js.str "ann"); ("departmentId", Js.str "d1")] in
  LivechatDepartmentAgents.selects
    (LivechatDepartmentAgents.query
       (LivechatDepartmentAgents.findUsersInQueue [] None)) agent = true /\
  LivechatDepartmentAgents.selects
    (LivechatDepartmentAgents.query
       (LivechatDepartmentAgents.findByDepartmentIds [] None)) agent = false.
Proof.
  cbv zeta.
  destruct (empty_list_selects_all_users_but_no_department
              [("username", Js.str "ann"); ("departmentId", Js.str "d1")]
              [] [] None) as (Hq & _ & _ & Hd).
  split; [apply Hq|apply Hd]; reflexivity.
Defined.

(** [findActiveDepartmentsByAgentId] never selects a document of a disabled
    department or of another agent: it selects exactly the documents whose
    [agentId] is the given one and whose [departmentEnabled] is [true]. *)
Theorem active_departments_are_enabled_and_of_the_agent :
  forall (document : Js.Obj) (agentId : string) (options : option Js.Obj),
    LivechatDepartmentAgents.selects
      (LivechatDepartmentAgents.query
         (LivechatDepartmentAgents.findActiveDepartmentsByAgentId agentId options))
      document = true <->
    Js.get document "agentId" = Js.str agentId /\
    Js.get document "departmentEnabled" = Js.boolean true.
Proof.
  intros document agentId options. cbn. rewrite andb_true_r.
  destruct (Js.get document "agentId") as [|s|b|t];
    destruct (Js.get document "departmentEnabled") as [|s'|[|]|t']; cbn;
    split; try discriminate; try (intros [E1 E2]; discriminate);
    rewrite ?andb_true_r, ?andb_false_r; try discriminate.
  - intro H. apply String.eqb_eq in H. subst s. split; reflexivity.
  - intros [E _]. injection E as ->. apply String.eqb_refl.
Qed.

(** ** Beyond the claims: the users by time of the day *)

(** The query function answers with the endpoint's response, when there is
    one, and reports with it the range it asked for: the endpoint is called
    with the range of the period, [start] and [end] of the result are that
    range, also when the response carries a [start] or an [end] of its own,
    and every other property is the response's.  Without a response the
    result is undefined. *)
Theorem query_reports_requested_range :
  forall (Period : Type) (getPeriodRange : Period -> bool -> nat * nat)
         (endpoint : nat -> nat -> option Js.Obj) (period : Period) (utc : bool),
    let range := getPeriodRange period utc in
    let result := UsersByTimeOfTheDay.queryFn Period getPeriodRange endpoint period utc in
    match endpoint (fst range) (snd range) with
    | Some response =>
        exists data,
          result = Some data /\
          Js.get data "start" = Js.date (fst range) /\
          Js.get data "end" = Js.date (snd range) /\
          (forall k, k <> "start" -> k <> "end" ->
                     Js.get data k = Js.get response k)
    | None => result = None
    end.
Proof.
  intros Period getPeriodRange endpoint period utc range result.
  subst result range. unfold UsersByTimeOfTheDay.queryFn.
  destruct (getPeriodRange period utc) as [start end_]. cbn [fst snd].
  destruct (endpoint start end_) as [response|]; [|reflexivity].
  eexists. split; [reflexivity|]. repeat split; js_get; try reflexivity.
  intros k H1 H2.
  rewrite !Js_get_set_other by (intro E; subst k; contradiction).
  reflexivity.
Qed.

(** A range with a response that has a [start] of its own. *)
Lemma query_reports_requested_range_witness :
  UsersByTimeOfTheDay.queryFn bool (fun _ _ => (10, 20))
    (fun _ _ => Some [("start", Js.str "stale"); ("week", Js.str "w1")])
    true false =
    Some [("start", Js.date 10); ("week", Js.str "w1"); ("end", Js.date 20)].
Proof.
  pose proof (query_reports_requested_range bool (fun _ _ => (10, 20))
                (fun _ _ => Some [("start", Js.str "stale"); ("week", Js.str "w1")])
                true false) as (data & Hresult & _).
  rewrite Hresult. cbn in Hresult. injection Hresult as <-. reflexivity.
Defined.

(** ** Beyond the claims: the end of a session *)

(** On every object reached from the constructor, when the emitter of the
    tracked session delivers [Terminating] or [Terminated], from whatever
    call state (an offer not picked up, a call, or [UNREGISTERED] or
    [SERVER_CONNECTED] reached in the meantime), the callback returns,
    [callState] becomes [REGISTERED], the session is dropped, the operation
    in progress cleared and the user state [IDLE]; [callterminated] then
    [stateChanged] are emitted, with the remote stream cleared in between
    when there is one.  The stream wrapper, the caller info and every other
    field stay. *)
Theorem termination_always_registers :
  forall cfg mediaRenderer (inputs : list (Transport * Input))
         (tr : Transport) (s : Session) (st : SessionState),
    let u := run inputs (construct cfg mediaRenderer) in
    session u = Some s ->
    terminal st = true ->
    step tr (StateChange (session_ref s) st) u =
      {| completion := Returned tt; after := hung_up u;
         effects := hang_up_effects u |} /\
    callState (hung_up u) = REGISTERED /\
    remoteStream (hung_up u) = remoteStream u /\
    _callerInfo (hung_up u) = _callerInfo u.
Proof.
  intros cfg mediaRenderer inputs tr s st u Hs Hst.
  pose proof (reachable_consistent cfg mediaRenderer inputs) as C. fold u in C.
  split; [|repeat split].
  rewrite step_StateChange.
  apply deliver_terminal; [exact Hs|apply (listener_on_own_emitter _ C)| |exact Hst].
  exists s. apply (tracked_is_listened _ C _ Hs).
Qed.

(** The user unregisters in the middle of Alice's call; when the call ends
    the object is back to [REGISTERED]. *)
Lemma termination_always_registers_witness :
  let u := run (Fixtures.call ++
                [(Fixtures.established, Unregister);
                 (Fixtures.established, OnAccept)])
               (construct Fixtures.cfg None) in
  callState u = UNREGISTERED /\
  callState
    (after (step Fixtures.established (StateChange 1 SessionState.Terminated) u)) =
    REGISTERED.
Proof.
  cbv zeta. split; [reflexivity|].
  change 1 with (session_ref (AnInvitation Fixtures.alice)).
  rewrite (proj1 (termination_always_registers Fixtures.cfg None
                    (Fixtures.call ++
                     [(Fixtures.established, Unregister);
                      (Fixtures.established, OnAccept)])
                    Fixtures.established (AnInvitation Fixtures.alice)
                    SessionState.Terminated eq_refl eq_refl)).
  reflexivity.
Defined.
